(** * A shallow embedding of the LSTM captioning model and its experiment
    driver ([lstm_model.py], [experiment.py]).

    Tensors are modelled by what the claims observe: the decoder is a
    per-example recurrent cell threaded through a state, vocabulary scores
    are rows of integers (the ordering of float scores, no rounding), and
    the PyTorch operations whose dtype or shape checks can raise are
    modelled with those checks. Errors (Python exceptions) are the [Err]
    branch of a small result monad. *)

From Stdlib Require Import ZArith QArith String.
From stdpp Require Import base list gmap strings.

(** ** Exceptions *)

Inductive result (A : Type) : Type :=
  | Ok (a : A)
  | Err (msg : string).
Arguments Ok {A} _.
Arguments Err {A} _.

Global Instance result_ret : MRet result := λ A a, Ok a.
Global Instance result_bind : MBind result :=
  λ A B f m, match m with Ok a => f a | Err e => Err e end.

(** ** Special tokens of the vocabulary *)

Definition START : string := "<start>".
Definition END : string := "<end>".
Definition PAD : string := "<pad>".

(** ** The generation config ("generation" block of the json config) *)

Record GenerationConfig := {
  max_length : nat;
  deterministic : bool;
  temperature : Q
}.

(** ** The model: the components [LSTMModel.__init__] builds.
    [features] is [resnetfc (resnet image)] for one image, [word_embedding]
    the rows of [word_embedder], [decoder_cell] one time step of the
    multi-layer [nn.LSTM] on one example (its state holds the hidden and
    cell tensors of every layer), [decoder_zero] the all-zero state. *)

Record LSTMModel (Img Vec St Hid : Type) := {
  embedding_size : nat;
  vocab_size : nat;
  features : Img -> Vec;
  word_embedding : nat -> Vec;
  decoder_cell : St -> Vec -> St * Hid;
  decoder_zero : St;
  hidden2output : Hid -> list Z;
  vocab : string -> nat;
  idx2word : nat -> string
}.
Arguments embedding_size {Img Vec St Hid} _.
Arguments vocab_size {Img Vec St Hid} _.
Arguments features {Img Vec St Hid} _ _.
Arguments word_embedding {Img Vec St Hid} _ _.
Arguments decoder_cell {Img Vec St Hid} _ _ _.
Arguments decoder_zero {Img Vec St Hid} _.
Arguments hidden2output {Img Vec St Hid} _ _.
Arguments vocab {Img Vec St Hid} _ _.
Arguments idx2word {Img Vec St Hid} _ _.

(** The torch functionals used by [generate]: [log_softmax] over a row,
    [softmax (output / temperature)] over a row, and one draw of
    [Categorical(p).sample()] from the global random source [Rng]. *)

Record TorchOps (Rng : Type) := {
  log_softmax : list Z -> list Z;
  softmax_temp : list Z -> Q -> list Z;
  categorical_sample : list Z -> Rng -> nat * Rng
}.
Arguments log_softmax {Rng} _ _.
Arguments softmax_temp {Rng} _ _ _.
Arguments categorical_sample {Rng} _ _ _.

(** The index returned by [Tensor.max(dim)]: the first position holding
    the maximum (a later entry replaces the best one only when strictly
    greater). *)

Fixpoint max_index_from (i best_i : nat) (best : Z) (row : list Z) : nat :=
  match row with
  | [] => best_i
  | x :: r =>
      if (best <? x)%Z then max_index_from (S i) i x r
      else max_index_from (S i) best_i best r
  end.

Definition max_index (row : list Z) : nat :=
  match row with
  | [] => 0
  | x :: r => max_index_from 1 0 x r
  end.

(** An input tensor of [nn.Embedding]: integer indices, or floats. *)

Inductive emb_input (Vec : Type) : Type :=
  | LongT (ids : list (list nat))
  | FloatT (xs : list (list Vec)).
Arguments LongT {Vec} _.
Arguments FloatT {Vec} _.

Section Generate.
Context {Img Vec St Hid Rng : Type}.
Variable m : LSTMModel Img Vec St Hid.
Variable T : TorchOps Rng.

(** [self.word_embedder(x)]: [F.embedding] accepts Long or Int indices
    only and raises on a float tensor. *)
Definition word_embedder (x : emb_input Vec) : result (list (list Vec)) :=
  match x with
  | LongT ids => Ok (map (map (word_embedding m)) ids)
  | FloatT _ =>
      Err "Expected tensor for argument #1 'indices' to have one of the following scalar types: Long, Int"
  end.

(** [nn.LSTM] on one example's input sequence, from state [s]. *)
Fixpoint lstm_seq (s : St) (xs : list Vec) : list Hid * St :=
  match xs with
  | [] => ([], s)
  | x :: xs' =>
      let '(s1, h) := decoder_cell m s x in
      let '(hs, s2) := lstm_seq s1 xs' in
      (h :: hs, s2)
  end.

(** [self.decoder(embedded, (hidden_states, cell_states))] on a batch. *)
Definition decoder_batch (hs : list St) (xs : list (list Vec))
  : list (list Hid) * list St :=
  let rs := zip_with lstm_seq hs xs in
  (map fst rs, map snd rs).

(** [output.squeeze(dim=1)]: (1, V) -> (V). *)
Definition squeeze1 (o : list (list Z)) : list Z :=
  match o with
  | [r] => r
  | _ => []
  end.

(** The draws of [Categorical(softmax).sample()], one per row. *)
Fixpoint sample_rows (rows : list (list Z)) (r : Rng) : list nat * Rng :=
  match rows with
  | [] => ([], r)
  | p :: rows' =>
      let '(i, r1) := categorical_sample T p r in
      let '(is, r2) := sample_rows rows' r1 in
      (i :: is, r2)
  end.

(** Lines 131-138: the token index chosen for every example. *)
Definition select_indices (cfg : GenerationConfig) (output : list (list Z))
    (r : Rng) : list nat * Rng :=
  if deterministic cfg then
    (map (λ row, max_index (log_softmax T row)) output, r)
  else
    sample_rows (map (λ row, softmax_temp T row (temperature cfg)) output) r.

(** Lines 139-146: record the chosen word of every example still
    generating, and count the examples that have just produced [<end>]. *)
Fixpoint record_words (it : nat) (indices : list nat) (keep : list bool)
    (caps : list (list string)) : list bool * list (list string) * nat :=
  match indices, keep, caps with
  | ix :: indices', k :: keep', c :: caps' =>
      let '(keep'', caps'', n) := record_words it indices' keep' caps' in
      if k then
        let w := idx2word m ix in
        if String.eqb w END then (false :: keep'', <[it := w]> c :: caps'', S n)
        else (true :: keep'', <[it := w]> c :: caps'', n)
      else (false :: keep'', c :: caps'', n)
  | _, _, _ => ([], [], 0)
  end.

(** The local variables of the while loop of [generate]. *)
Record gstate := mkG {
  iter : nat;
  num_complete : nat;
  keep_generating : list bool;
  captions : list (list string);
  hidden : list St;
  rng : Rng
}.

(** Lines 119-126: the decoder input of the current step. [x0] is what
    lines 120-122 compute as the input of step 0. *)
Definition step_input (x0 : result (list (list Vec))) (s : gstate)
  : result (list (list Vec)) :=
  if iter s =? 0 then x0
  else word_embedder
         (LongT (map (λ ls, [vocab m (nth (iter s - 1) ls "")]) (captions s))).

(** Lines 128-138: advance the recurrent state and choose one token index
    per example. *)
Definition step_select (cfg : GenerationConfig) (x0 : result (list (list Vec)))
    (s : gstate) : result (list nat * list St * Rng) :=
  embedded ← step_input x0 s;
  let '(outs, hs') := decoder_batch (hidden s) embedded in
  let output := map (λ o, squeeze1 (map (hidden2output m) o)) outs in
  let '(indices, r') := select_indices cfg output (rng s) in
  Ok (indices, hs', r').

(** One iteration of the while loop (lines 118-147). *)
Definition gen_body (cfg : GenerationConfig) (x0 : result (list (list Vec)))
    (s : gstate) : result gstate :=
  '(indices, hs', r') ← step_select cfg x0 s;
  let '(keep', caps', n) :=
    record_words (iter s) indices (keep_generating s) (captions s) in
  Ok (mkG (S (iter s)) (num_complete s + n) keep' caps' hs' r').

(** The loop condition of line 117. *)
Definition gen_guard (cfg : GenerationConfig) (B : nat) (s : gstate) : bool :=
  (iter s <? max_length cfg + 1) && (num_complete s <? B).

Fixpoint gen_loop (cfg : GenerationConfig) (x0 : result (list (list Vec)))
    (B fuel : nat) (s : gstate) : result gstate :=
  match fuel with
  | 0 => Ok s
  | S f =>
      if gen_guard cfg B s then
        s' ← gen_body cfg x0 s; gen_loop cfg x0 B f s'
      else Ok s
  end.

(** The while loop: every iteration increments [iter], so
    [max_length + 1 - iter] iterations are all the loop can make. *)
Definition gen_while (cfg : GenerationConfig) (x0 : result (list (list Vec)))
    (B : nat) (s : gstate) : result gstate :=
  gen_loop cfg x0 B (S (max_length cfg) - iter s) s.

(** Lines 103-116. *)
Definition init_captions (B M : nat) : list (list string) :=
  replicate B (<[0 := START]> (replicate (S M) PAD)).

Definition init_state (B M : nat) (r : Rng) : gstate :=
  mkG 0 0 (replicate B true) (init_captions B M) (replicate B (decoder_zero m)) r.

(** Line 149. *)
Definition is_special (w : string) : bool :=
  String.eqb w START || String.eqb w END || String.eqb w PAD.

Definition strip_special (ls : list string) : list string :=
  List.filter (λ w, negb (is_special w)) ls.

(** [LSTMModel.generate]. The step-0 input is
    [self.word_embedder(features.unsqueeze(dim=1))] on the float image
    features. *)
Definition generate (images : list Img) (cfg : GenerationConfig) (r : Rng)
  : result (list (list string) * Rng) :=
  let B := length images in
  let x0 := word_embedder (FloatT (map (λ im, [features m im]) images)) in
  s ← gen_while cfg x0 B (init_state B (max_length cfg) r);
  Ok (map strip_special (captions s), rng s).

(** States of the while loop reachable from the initial one. *)
Inductive reach (cfg : GenerationConfig) (x0 : result (list (list Vec)))
    (B : nat) : gstate -> Prop :=
  | reach_init r : reach cfg x0 B (init_state B (max_length cfg) r)
  | reach_step s s' :
      reach cfg x0 B s -> gen_guard cfg B s = true ->
      gen_body cfg x0 s = Ok s' -> reach cfg x0 B s'.

(** Shape of the loop variables: one entry per example, caption buffers of
    [max_len + 1] words whose positions from [iter] on are untouched
    [<pad>]s, and no example completed before the first step. *)
Definition gwf (B M : nat) (s : gstate) : Prop :=
  length (keep_generating s) = B ∧ length (captions s) = B ∧
  length (hidden s) = B ∧ Forall (λ c, length c = S M) (captions s) ∧
  (∀ i c j, captions s !! i = Some c → iter s ≤ j → 1 ≤ j → j ≤ M →
            c !! j = Some PAD) ∧
  (∀ i, keep_generating s !! i = Some false → 1 ≤ iter s).

Definition set_rng (s : gstate) (r : Rng) : gstate :=
  mkG (iter s) (num_complete s) (keep_generating s) (captions s) (hidden s) r.

End Generate.

(** ** Teacher-forced scoring: [LSTMModel.forward] *)

(** Shapes of the tensors [forward] builds, with the checks of the torch
    operations on them that can raise. *)

(** [resnet.fc.in_features] of resnet50. *)
Definition resnet_fc_in : nat := 2048.

(** [Tensor.squeeze_()]: drops every dimension of size 1. *)
Definition squeeze_all (sh : list nat) : list nat :=
  List.filter (λ d, negb (d =? 1)) sh.

(** [Tensor.unsqueeze(dim=d)]. *)
Definition unsqueeze (sh : list nat) (d : nat) : list nat :=
  take d sh ++ 1 :: drop d sh.

(** [nn.Linear(_, n_out)] on the last dimension (its input size always
    matches in [forward]). *)
Definition linear_shape (sh : list nat) (n_out : nat) : list nat :=
  removelast sh ++ [n_out].

(** [torch.cat((a, b), dim=d)]. *)
Definition cat_shape (d : nat) (a b : list nat) : result (list nat) :=
  if negb (length a =? length b) then
    Err "Tensors must have same number of dimensions"
  else if length a <=? d then Err "Dimension out of range"
  else if bool_decide (take d a ++ drop (S d) a = take d b ++ drop (S d) b) then
    Ok (<[d := nth d a 0 + nth d b 0]> a)
  else Err "Sizes of tensors must match except in dimension 1".

(** The shape of the output of [forward] on [N] images and [Nc] captions
    of length [L]: [features] is (N, E) after [squeeze_] and [resnetfc]
    (for [N <> 1]), then (N, 1, E); [word_embedder(captions[:, :-1])] is
    (Nc, L - 1, E); [torch.cat] checks the dimensions and the sizes; the
    decoder and [hidden2output] keep the batch and time dimensions, and
    [permute(0, 2, 1)] moves the vocabulary before time. *)
Definition forward_shape (N Nc L E V : nat) : result (list nat) :=
  let feat := unsqueeze (linear_shape (squeeze_all [N; resnet_fc_in; 1; 1]) E) 1 in
  let emb := [Nc; pred L; E] in
  x ← cat_shape 1 feat emb;
  match x with
  | [n; t; _] => Ok [n; V; t]
  | _ => Err "LSTM: expected a 3-D batched input"
  end.

Section Forward.
Context {Img Vec St Hid : Type}.
Variable m : LSTMModel Img Vec St Hid.

(** [output.permute(0, 2, 1)] on one example: (L, V) -> (V, L). *)
Definition permute_vocab (V : nat) (rows : list (list Z)) : list (list Z) :=
  map (λ v, map (λ r, nth v r 0%Z) rows) (seq 0 V).

(** One example of [forward]: the image features, then the embeddings of
    [caption[:-1]], run through the decoder from the zero state. *)
Definition forward_example (img : Img) (caption : list nat) : list (list Z) :=
  let inputs := features m img :: map (word_embedding m) (removelast caption) in
  permute_vocab (vocab_size m)
    (map (hidden2output m) (fst (lstm_seq m (decoder_zero m) inputs))).

(** [LSTMModel.forward(images, captions)]. *)
Definition forward (images : list Img) (captions : list (list nat))
  : result (list (list (list Z))) :=
  let L := match captions with c :: _ => length c | [] => 0 end in
  _ ← forward_shape (length images) (length captions) L (embedding_size m) (vocab_size m);
  Ok (zip_with forward_example images captions).

End Forward.

(** ** The experiment driver ([experiment.py])

    The datasets, the network and the optimizer are what [Experiment]
    receives from its factories; they are the fields of [ExpEnv]. The
    parts of a training step that are tensor code (forward pass and
    cross-entropy, then [zero_grad], [backward] and [step]) are the
    functions [batch_loss] and [optimizer_step]; [generate_example_caption]
    and [test] are the two methods [run] calls whose effects no claim
    below observes, and [show_image] (lines 120-129) displays an image and
    raises when it does not reshape to (3, 256, 256). [experiment_dir] is
    [ROOT_STATS_DIR] (line 31). *)

Record Batch (Img : Type) := mkBatch {
  b_images : list Img;
  b_captions : list (list nat)
}.
Arguments mkBatch {Img} _ _.
Arguments b_images {Img} _.
Arguments b_captions {Img} _.

(** The "experiment" block of the json config. *)
Record ExpConfig := mkCfg {
  num_epochs : nat;
  save : bool;
  load : bool
}.

(** What a file of the stats directory holds. *)
Inductive file_content (Mdl Opt : Type) :=
  | FLosses (l : list Q)
  | FCheckpoint (mdl : Mdl) (opt : Opt)
  | FLog (lines : nat)
  | FPlot.
Arguments FLosses {Mdl Opt} _.
Arguments FCheckpoint {Mdl Opt} _ _.
Arguments FLog {Mdl Opt} _.
Arguments FPlot {Mdl Opt}.

(** The file system: the existing directories, and the files by
    (directory, file name). *)
Record World (Mdl Opt : Type) := mkW {
  dirs : gset string;
  files : gmap (string * string) (file_content Mdl Opt)
}.
Arguments mkW {Mdl Opt} _ _.
Arguments dirs {Mdl Opt} _.
Arguments files {Mdl Opt} _.

(** The fields of an [Experiment] the driver updates. A loss history is a
    Python value that is a list or [None] (what [read_file_in_dir] returns
    for a missing file). *)
Record Experiment (Img Mdl Opt : Type) := mkE {
  current_epoch : nat;
  training_losses : option (list Q);
  val_losses : option (list Q);
  model_state : Mdl;
  optimizer_state : Opt;
  example_img : option Img
}.
Arguments mkE {Img Mdl Opt} _ _ _ _ _ _.
Arguments current_epoch {Img Mdl Opt} _.
Arguments training_losses {Img Mdl Opt} _.
Arguments val_losses {Img Mdl Opt} _.
Arguments model_state {Img Mdl Opt} _.
Arguments optimizer_state {Img Mdl Opt} _.
Arguments example_img {Img Mdl Opt} _.

Record ExpEnv (Img Mdl Opt : Type) := mkEnv {
  ROOT_STATS_DIR : string;
  train_loader : list (Batch Img);
  val_loader : list (Batch Img);
  batch_loss : Mdl -> Batch Img -> result Q;
  optimizer_step : Mdl -> Opt -> Batch Img -> Mdl * Opt;
  show_image : Img -> result unit;
  generate_example_caption : Experiment Img Mdl Opt -> result unit;
  test : Mdl -> result unit
}.
Arguments mkEnv {Img Mdl Opt} _ _ _ _ _ _ _ _.
Arguments ROOT_STATS_DIR {Img Mdl Opt} _.
Arguments train_loader {Img Mdl Opt} _.
Arguments val_loader {Img Mdl Opt} _.
Arguments batch_loss {Img Mdl Opt} _ _ _.
Arguments optimizer_step {Img Mdl Opt} _ _ _ _.
Arguments show_image {Img Mdl Opt} _ _.
Arguments generate_example_caption {Img Mdl Opt} _ _.
Arguments test {Img Mdl Opt} _ _.

(** *** [utils.file_utils] and the [os] / [torch] file calls.
    [utils.file_utils] is not part of the sources: its two functions are
    modelled as their use here and the usual json helpers have them
    ([read_file_in_dir] gives [None] for a missing file and fails on a
    file that is not json; writing opens the file, which fails when the
    directory does not exist). *)

Section Files.
Context {Mdl Opt : Type}.
Implicit Types (w : World Mdl Opt) (d f : string).

Definition makedirs_exist_ok w d : World Mdl Opt :=
  mkW ({[d]} ∪ dirs w) (files w).

Definition makedirs w d : result (World Mdl Opt) :=
  if decide (d ∈ dirs w) then Err "FileExistsError: [Errno 17] File exists"
  else Ok (makedirs_exist_ok w d).

Definition open_for_write w d f (c : file_content Mdl Opt) : result (World Mdl Opt) :=
  if decide (d ∈ dirs w) then Ok (mkW (dirs w) (<[(d, f) := c]> (files w)))
  else Err "FileNotFoundError: [Errno 2] No such file or directory".

Definition read_file_in_dir w d f : result (option (list Q)) :=
  match files w !! (d, f) with
  | None => Ok None
  | Some (FLosses l) => Ok (Some l)
  | Some _ => Err "JSONDecodeError: Expecting value"
  end.

Definition write_to_file_in_dir w d f (l : list Q) : result (World Mdl Opt) :=
  open_for_write w d f (FLosses l).

Definition log_to_file_in_dir w d f : result (World Mdl Opt) :=
  let n := match files w !! (d, f) with Some (FLog n) => n | _ => 0 end in
  open_for_write w d f (FLog (S n)).

Definition torch_load w d f : result (Mdl * Opt) :=
  match files w !! (d, f) with
  | Some (FCheckpoint mdl opt) => Ok (mdl, opt)
  | Some _ => Err "UnpicklingError: invalid load key"
  | None => Err "FileNotFoundError: [Errno 2] No such file or directory"
  end.

Definition torch_save w d f (mdl : Mdl) (opt : Opt) : result (World Mdl Opt) :=
  open_for_write w d f (FCheckpoint mdl opt).

Definition py_len (x : option (list Q)) : result nat :=
  match x with
  | Some l => Ok (length l)
  | None => Err "TypeError: object of type 'NoneType' has no len()"
  end.

End Files.

(** [x /= len(loader)] with the running sum [x] starting at the integer 0. *)
Definition py_div_len (x : Q) (n : nat) : result Q :=
  if n =? 0 then Err "ZeroDivisionError: division by zero"
  else Ok (Qdiv x (inject_Z (Z.of_nat n))).

Section Driver.
Context {Img Mdl Opt : Type} (env : ExpEnv Img Mdl Opt) (cfg : ExpConfig).
Local Abbreviation Exp := (Experiment Img Mdl Opt).
Local Abbreviation W := (World Mdl Opt).
Local Abbreviation experiment_dir := (ROOT_STATS_DIR env).

Definition set_current_epoch (e : Exp) (n : nat) : Exp :=
  mkE n (training_losses e) (val_losses e) (model_state e) (optimizer_state e) (example_img e).
Definition set_example_img (e : Exp) (img : Img) : Exp :=
  mkE (current_epoch e) (training_losses e) (val_losses e) (model_state e) (optimizer_state e) (Some img).
Definition set_params (e : Exp) (p : Mdl * Opt) : Exp :=
  mkE (current_epoch e) (training_losses e) (val_losses e) p.1 p.2 (example_img e).
Definition set_histories (e : Exp) (tl vl : list Q) : Exp :=
  mkE (current_epoch e) (Some tl) (Some vl) (model_state e) (optimizer_state e) (example_img e).

(** [__init__], lines 40-45 and 61-62, with the model and optimizer the
    factories built. *)
Definition fresh_experiment (mdl : Mdl) (opt : Opt) : Exp :=
  mkE 0 (Some []) (Some []) mdl opt None.

(** [__load_experiment] (lines 66-79). *)
Definition load_experiment (w : W) (e : Exp) : result (W * Exp) :=
  let w := makedirs_exist_ok w (ROOT_STATS_DIR env) in
  if bool_decide (experiment_dir ∈ dirs w) && load cfg then
    tl ← read_file_in_dir w experiment_dir "training_losses.txt";
    vl ← read_file_in_dir w experiment_dir "val_losses.txt";
    n ← py_len tl;
    '(mdl, opt) ← torch_load w experiment_dir "latest_model.pt";
    Ok (w, mkE n tl vl mdl opt (example_img e))
  else
    w ← makedirs w experiment_dir;
    Ok (w, e).

Definition init_experiment (w : W) (mdl : Mdl) (opt : Opt) : result (W * Exp) :=
  let e := fresh_experiment mdl opt in
  if load cfg then load_experiment w e else Ok (w, e).

(** The loop of [__train] (lines 137-161): the first batch seen sets
    [example_img] to its first image and shows it; every batch then goes through the
    forward pass, the loss and an optimizer step. *)
Fixpoint train_batches (e : Exp) (bs : list (Batch Img)) (acc : Q) : result (Exp * Q) :=
  match bs with
  | [] => Ok (e, acc)
  | b :: bs' =>
      e ← match example_img e with
          | Some _ => Ok e
          | None =>
              match b_images b with
              | img :: _ => _ ← show_image env img; Ok (set_example_img e img)
              | [] => Err "IndexError: index 0 is out of bounds for dimension 0 with size 0"
              end
          end;
      loss ← batch_loss env (model_state e) b;
      train_batches (set_params e (optimizer_step env (model_state e) (optimizer_state e) b))
        bs' (Qplus acc loss)
  end.

Definition train (e : Exp) : result (Exp * Q) :=
  '(e, s) ← train_batches e (train_loader env) 0%Q;
  l ← py_div_len s (length (train_loader env));
  Ok (e, l).

Fixpoint val_batches (mdl : Mdl) (bs : list (Batch Img)) (acc : Q) : result Q :=
  match bs with
  | [] => Ok acc
  | b :: bs' => loss ← batch_loss env mdl b; val_batches mdl bs' (Qplus acc loss)
  end.

(** [__val] (lines 169-187). *)
Definition val (e : Exp) : result Q :=
  s ← val_batches (model_state e) (val_loader env) 0%Q;
  py_div_len s (length (val_loader env)).

(** [__record_stats] (lines 250-256). *)
Definition record_stats (w : W) (e : Exp) (tl vl : Q) : result (W * Exp) :=
  match training_losses e, val_losses e with
  | Some ts, Some vs =>
      let e := set_histories e (ts ++ [tl]) (vs ++ [vl]) in
      if save cfg then
        w ← write_to_file_in_dir w experiment_dir "training_losses.txt" (ts ++ [tl]);
        w ← write_to_file_in_dir w experiment_dir "val_losses.txt" (vs ++ [vl]);
        Ok (w, e)
      else Ok (w, e)
  | _, _ => Err "AttributeError: 'NoneType' object has no attribute 'append'"
  end.

(** [__log] (lines 258-263). *)
Definition log (w : W) (file_name : option string) : result W :=
  if save cfg then
    w ← log_to_file_in_dir w experiment_dir "all.log";
    match file_name with
    | Some f => log_to_file_in_dir w experiment_dir f
    | None => Ok w
    end
  else Ok w.

Definition py_index (x : option (list Q)) (i : nat) : result Q :=
  match x with
  | Some l => match l !! i with
              | Some q => Ok q
              | None => Err "IndexError: list index out of range"
              end
  | None => Err "TypeError: 'NoneType' object is not subscriptable"
  end.

(** [__log_epoch_stats] (lines 265-273). *)
Definition log_epoch_stats (w : W) (e : Exp) : result W :=
  _ ← py_index (training_losses e) (current_epoch e);
  _ ← py_index (val_losses e) (current_epoch e);
  log w (Some "epoch.log").

(** [__save_model] (lines 243-248). *)
Definition save_model (w : W) (e : Exp) : result W :=
  if save cfg then torch_save w experiment_dir "latest_model.pt" (model_state e) (optimizer_state e)
  else Ok w.

(** [plot_stats] (lines 275-286): both histories are plotted against
    [1..len(training_losses)], which fails when their lengths differ. *)
Definition plot_stats (w : W) (e : Exp) (save_flag : bool) : result W :=
  n ← py_len (training_losses e);
  m ← py_len (val_losses e);
  if negb (m =? n) then Err "ValueError: x and y must have same first dimension"
  else if save cfg && save_flag then open_for_write w experiment_dir "stat_plot.png" FPlot
  else Ok w.

(** The test condition of line 107. *)
Definition should_test (start_epoch epoch : nat) : bool :=
  (epoch mod 10 =? 0) && negb (epoch =? start_epoch).

(** One iteration of the loop of [run] (lines 106-117). The third
    component lists the epochs at which [test] ran. *)
Definition run_epoch (start_epoch : nat) (st : W * Exp * list nat) (epoch : nat)
    : result (W * Exp * list nat) :=
  let '(w, e, tested) := st in
  _ ← generate_example_caption env e;
  tested ← (if should_test start_epoch epoch then
              _ ← test env (model_state e); Ok (tested ++ [epoch])
            else Ok tested);
  let e := set_current_epoch e epoch in
  '(e, train_loss) ← train e;
  val_loss ← val e;
  '(w, e) ← record_stats w e train_loss val_loss;
  w ← log_epoch_stats w e;
  w ← save_model w e;
  w ← plot_stats w e true;
  Ok (w, e, tested).

Fixpoint run_epochs (start_epoch : nat) (st : W * Exp * list nat) (epochs : list nat)
    : result (W * Exp * list nat) :=
  match epochs with
  | [] => Ok st
  | epoch :: epochs' =>
      st ← run_epoch start_epoch st epoch;
      run_epochs start_epoch st epochs'
  end.

(** [run] (lines 102-118): [range(start_epoch, self.__epochs)]. *)
Definition run (w : W) (e : Exp) : result (W * Exp * list nat) :=
  let start_epoch := current_epoch e in
  '(w, e, tested) ← run_epochs start_epoch (w, e, [])
                      (seq start_epoch (num_epochs cfg - start_epoch));
  w ← plot_stats w e true;
  Ok (w, e, tested).

End Driver.

(** C8's reading of a training epoch, with the example image left out:
    every batch, in order, goes through [batch_loss] and then gets an
    [optimizer_step], and its loss is added to the running sum. *)
Fixpoint no_skip_epoch {Img Mdl Opt : Type} (env : ExpEnv Img Mdl Opt) (mdl : Mdl) (opt : Opt)
    (bs : list (Batch Img)) (acc : Q) : result (Mdl * Opt * Q) :=
  match bs with
  | [] => Ok (mdl, opt, acc)
  | b :: bs' =>
      loss ← batch_loss env mdl b;
      let '(mdl', opt') := optimizer_step env mdl opt b in
      no_skip_epoch env mdl' opt' bs' (Qplus acc loss)
  end.

(** *** The driver on the captioning model

    [Experiment] with an [LSTMModel] as its network. The loss of a batch
    is [self.__criterion(self.__model(images, captions), captions)], and
    [generate_example_caption] and [test] call [generate] and [forward].
    The following are parameters:
    - [criterion] is [nn.CrossEntropyLoss].
    - [bleu1] and [bleu4] are the scores of [caption_utils].
    - [references] gives the tokenized COCO captions of an image id.
    - [show_image] displays an image (it raises when the image does not
      reshape to (3, 256, 256)).
    - [tqdm_write] is [tqdm.write] on a generated caption.
    The global random source of torch is not threaded through the driver:
    [generate] is called with [r0]. *)

(** Python's [l[i]] on a list or along the first dimension of a tensor: a
    negative index counts from the end. *)
Definition py_getitem {A : Type} (l : list A) (i : Z) : result A :=
  let j := if (i <? 0)%Z then (Z.of_nat (length l) + i)%Z else i in
  if (j <? 0)%Z then Err "IndexError: index out of range"
  else match l !! Z.to_nat j with
       | Some x => Ok x
       | None => Err "IndexError: index out of range"
       end.

Section LstmDriver.
Context {Img Vec St Hid Rng Opt : Type}.
Variable T : TorchOps Rng.
Variable generation_config : GenerationConfig.
Variable r0 : Rng.
Variable criterion : list (list (list Z)) → list (list nat) → result Q.
Variable show_image : Img → result unit.
Variable references : nat → list (list string).
Variables bleu1 bleu4 : list (list string) → list string → Q.
Variable tqdm_write : list string → result unit.
Local Abbreviation Mdl := (LSTMModel Img Vec St Hid).

(** Lines 150-156 and 176-180. *)
Definition lstm_batch_loss (mdl : Mdl) (b : Batch Img) : result Q :=
  outputs ← forward mdl (b_images b) (b_captions b);
  criterion outputs (b_captions b).

(** [generate_example_caption] (lines 92-98). *)
Definition lstm_generate_example_caption (e : Experiment Img Mdl Opt) : result unit :=
  match example_img e with
  | Some img =>
      '(generated, _) ← generate (model_state e) T [img] generation_config r0;
      match generated !! 0 with
      | Some _ => Ok tt
      | None => Err "IndexError: list index out of range"
      end
  | None => Ok tt
  end.

(** The inner loop of [test] (lines 214-226) over the examples of a
    batch. The state is [(total_bleu1, total_bleu4, num_bleu, max_bleu,
    max_idx)]. *)
Fixpoint bleu_loop (generated : list (list string)) (img_ids : list nat)
    (is : list nat) (st : Q * Q * nat * Q * Z) : result (Q * Q * nat * Q * Z) :=
  match is with
  | [] => Ok st
  | i :: is' =>
      let '(t1, t4, nb, max_bleu, max_idx) := st in
      id ← py_getitem img_ids (Z.of_nat i);
      let test_captions := references id in
      gen ← py_getitem generated (Z.of_nat i);
      let ex_bleu1 := bleu1 test_captions gen in
      let '(max_bleu, max_idx) :=
        if negb (Qle_bool ex_bleu1 max_bleu) then (ex_bleu1, Z.of_nat i)
        else (max_bleu, max_idx) in
      bleu_loop generated img_ids is'
        (Qplus t1 ex_bleu1, Qplus t4 (bleu4 test_captions gen), S nb, max_bleu, max_idx)
  end.

(** One iteration of the loop of [test] (lines 201-233). The accumulator
    is [(test_loss, bleu1, bleu4)]. *)
Definition test_batch (mdl : Mdl) (it : nat) (b : Batch Img) (img_ids : list nat)
    (acc : Q * Q * Q) : result (Q * Q * Q) :=
  let '(test_loss, b1, b4) := acc in
  outputs ← forward mdl (b_images b) (b_captions b);
  loss ← criterion outputs (b_captions b);
  '(generated, _) ← generate mdl T (b_images b) generation_config r0;
  '(t1, t4, nb, _, max_idx) ←
     bleu_loop generated img_ids (seq 0 (length (b_captions b)))
       (0%Q, 0%Q, 0%nat, (-1)%Q, (-1)%Z);
  _ ← (if it mod 10 =? 0 then
         img ← py_getitem (b_images b) max_idx;
         _ ← show_image img;
         gen ← py_getitem generated max_idx;
         tqdm_write gen
       else Ok tt);
  m1 ← py_div_len t1 nb;
  m4 ← py_div_len t4 nb;
  Ok (Qplus test_loss loss, Qplus b1 m1, Qplus b4 m4).

Fixpoint test_batches (mdl : Mdl) (it : nat) (loader : list (Batch Img * list nat))
    (acc : Q * Q * Q) : result (Q * Q * Q) :=
  match loader with
  | [] => Ok acc
  | (b, img_ids) :: loader' =>
      acc ← test_batch mdl it b img_ids acc;
      test_batches mdl (S it) loader' acc
  end.

(** [Experiment.test] (lines 192-241), up to the log of its result line
    (line 239), which writes [all.log] only. *)
Definition lstm_test (mdl : Mdl) (test_loader : list (Batch Img * list nat))
    : result (Q * Q * Q) :=
  '(test_loss, b1, b4) ← test_batches mdl 0 test_loader (0, 0, 0)%Q;
  b1 ← py_div_len b1 (length test_loader);
  b4 ← py_div_len b4 (length test_loader);
  test_loss ← py_div_len test_loss (length test_loader);
  Ok (test_loss, b1, b4).

(** The experiment environment of the captioning model. *)
Definition lstm_env (root : string) (train_loader val_loader : list (Batch Img))
    (test_loader : list (Batch Img * list nat))
    (optimizer_step : Mdl → Opt → Batch Img → Mdl * Opt) : ExpEnv Img Mdl Opt :=
  mkEnv root train_loader val_loader lstm_batch_loss optimizer_step show_image
    lstm_generate_example_caption (λ mdl, _ ← lstm_test mdl test_loader; Ok tt).

End LstmDriver.

(** The first index of a largest entry of [row]. *)
Definition first_argmax (row : list Z) (i : nat) : Prop :=
  ∃ v, row !! i = Some v ∧
       ∀ j y, row !! j = Some y → (y <= v)%Z ∧ (j < i → (y < v)%Z).

Definition rmap {A B : Type} (f : A → B) (x : result A) : result B :=
  match x with Ok a => Ok (f a) | Err e => Err e end.

(** ** A small concrete instance, used to run the definitions.
    Token ids: 0 <pad>, 1 <start>, 2 <end>, 3 "a", 4 "b". The hidden
    output of a step is its input, and the scores pick one token per
    input: 10 -> <end>, 0 -> "b", anything else -> "a". *)

Module Demo.

Definition demo_idx2word (i : nat) : string :=
  match i with
  | 0 => PAD | 1 => START | 2 => END | 3 => "a" | _ => "b"
  end.

Definition demo_vocab (w : string) : nat :=
  if String.eqb w PAD then 0
  else if String.eqb w START then 1
  else if String.eqb w END then 2
  else if String.eqb w "a" then 3 else 4.

Definition target (h : nat) : nat :=
  match h with 10 => 2 | 0 => 4 | _ => 3 end.

Definition one_hot (k : nat) : list Z :=
  map (λ j, if j =? k then 1%Z else 0%Z) (seq 0 5).

Definition model : LSTMModel nat nat nat nat := {|
  embedding_size := 4;
  vocab_size := 5;
  features := λ img, img;
  word_embedding := λ i, i;
  decoder_cell := λ s x, (S s, x);
  decoder_zero := 0;
  hidden2output := λ h, one_hot (target h);
  vocab := demo_vocab;
  idx2word := demo_idx2word
|}.

Definition torch : TorchOps nat := {|
  log_softmax := λ row, row;
  softmax_temp := λ row _, row;
  categorical_sample := λ p r, (max_index p, S r)
|}.

Definition greedy (M : nat) : GenerationConfig :=
  {| max_length := M; deterministic := true; temperature := 1%Q |}.

(** A valid step-0 input for the images [10] and [11] (their features),
    and the loop states it leads to with [max_length = 3]: example 0
    selects [<end>] at step 0, example 1 keeps selecting "a". *)
Definition x0 : result (list (list nat)) := Ok [[10]; [11]].

Definition s0 : @gstate nat nat := init_state model 2 3 0.

Definition s1 : @gstate nat nat :=
  mkG 1 1 [false; true] [[END; PAD; PAD; PAD]; ["a"; PAD; PAD; PAD]] [1; 1] 0.

Definition s2 : @gstate nat nat :=
  mkG 2 1 [false; true] [[END; PAD; PAD; PAD]; ["a"; "a"; PAD; PAD]] [2; 2] 0.

End Demo.

Module DemoRun.

Definition root : string := "stats".

(** Every batch has loss 1; a step adds one to both counters. *)
Definition env (loader : list (Batch nat)) : ExpEnv nat nat nat :=
  mkEnv root loader loader (λ _ _, Ok 1%Q) (λ mdl opt _, (S mdl, S opt)) (λ _, Ok tt)
    (λ _, Ok tt) (λ _, Ok tt).

(** The same, but [show_image] raises, as it does on an image that does
    not reshape to (3, 256, 256). *)
Definition env_bad_image (loader : list (Batch nat)) : ExpEnv nat nat nat :=
  mkEnv root loader loader (λ _ _, Ok 1%Q) (λ mdl opt _, (S mdl, S opt))
    (λ _, Err "RuntimeError: shape '[3, 256, 256]' is invalid for input of size 1")
    (λ _, Ok tt) (λ _, Ok tt).

Definition full_batch : Batch nat := mkBatch [1; 2] [[3; 2]; [3; 2]].
Definition empty_batch : Batch nat := mkBatch [] [].

Definition empty_world : World nat nat := mkW ∅ ∅.

Definition stats_world : World nat nat :=
  mkW {[root]}
    (<[(root, "training_losses.txt") := FLosses [1; 1]%Q]>
     (<[(root, "val_losses.txt") := FLosses [1; 1]%Q]>
      (<[(root, "latest_model.pt") := FCheckpoint 7 7]> ∅))).

End DemoRun.

(** The captioning model in the driver: two-image and one-image batches,
    every batch loss 1, and a step that counts optimizer steps. *)

Module DemoLstm.
Definition pair_batch : Batch nat := mkBatch [10; 11] [[3; 2]; [3; 2]].
Definition single_batch : Batch nat := mkBatch [10] [[3; 2]].
Definition env (loader : list (Batch nat)) : ExpEnv nat (LSTMModel nat nat nat nat) nat :=
  lstm_env Demo.torch (Demo.greedy 3) 0 (λ _ _, Ok 1%Q) (λ _, Ok tt) (λ _, [])
    (λ _ _, 0%Q) (λ _ _, 0%Q) (λ _, Ok tt) DemoRun.root loader loader []
    (λ mdl opt _, (mdl, S opt)).
Definition empty_world : World (LSTMModel nat nat nat nat) nat := mkW ∅ ∅.
End DemoLstm.

(** * Properties *)

(** ** Token selection: the index of [Tensor.max] *)

Lemma max_index_from_spec (r pre : list Z) (bi : nat) (b : Z) :
  pre !! bi = Some b →
  (∀ j y, pre !! j = Some y → (y <= b)%Z ∧ (j < bi → (y < b)%Z)) →
  first_argmax (pre ++ r) (max_index_from (length pre) bi b r).
Proof.
  revert pre bi b. induction r as [|x r IH]; intros pre bi b Hb Hpre; simpl.
  - rewrite app_nil_r. exists b. split; [done|exact Hpre].
  - replace (pre ++ x :: r) with ((pre ++ [x]) ++ r) by (rewrite <- app_assoc; done).
    replace (S (length pre)) with (length (pre ++ [x]))
      by (rewrite length_app; simpl; lia).
    pose proof (lookup_lt_Some _ _ _ Hb) as Hlt.
    destruct (b <? x)%Z eqn:Hbx.
    + apply Z.ltb_lt in Hbx. apply IH.
      * rewrite lookup_app_r by lia. rewrite Nat.sub_diag. done.
      * intros j y Hj. apply lookup_app_Some in Hj as [Hj|[Hge Hj]].
        -- pose proof (lookup_lt_Some _ _ _ Hj). destruct (Hpre j y Hj). lia.
        -- destruct (j - length pre) as [|k] eqn:E; simpl in Hj; [|by rewrite lookup_nil in Hj].
           injection Hj as <-. lia.
    + apply Z.ltb_ge in Hbx. apply IH.
      * rewrite lookup_app_l by lia. done.
      * intros j y Hj. apply lookup_app_Some in Hj as [Hj|[Hge Hj]].
        -- by apply Hpre.
        -- destruct (j - length pre) as [|k] eqn:E; simpl in Hj; [|by rewrite lookup_nil in Hj].
           injection Hj as <-. lia.
Qed.

Lemma max_index_spec (row : list Z) :
  row ≠ [] → first_argmax row (max_index row).
Proof.
  destruct row as [|x r]; [done|]. intros _. unfold max_index.
  apply (max_index_from_spec r [x] 0 x); [done|].
  intros j y Hj. destruct j as [|j]; simpl in Hj; [|by rewrite lookup_nil in Hj].
  injection Hj as <-. lia.
Qed.

(** ** One iteration of the recording loop (lines 139-146) *)

Section RecordWords.
Context {Img Vec St Hid : Type}.
Variable m : LSTMModel Img Vec St Hid.

Lemma record_words_length it indices keep caps keep' caps' n :
  record_words m it indices keep caps = (keep', caps', n) →
  length indices = length keep → length keep = length caps →
  length keep' = length keep ∧ length caps' = length caps.
Proof.
  revert keep caps keep' caps' n.
  induction indices as [|x indices IH]; intros keep caps keep' caps' n Hr Hl1 Hl2;
    destruct keep as [|k keep]; destruct caps as [|c caps]; simpl in *;
    try discriminate; try (injection Hr as <- <- <-; done).
  destruct (record_words m it indices keep caps) as [[k1 c1] n1] eqn:E.
  destruct (IH _ _ _ _ _ E) as [H1 H2]; [lia|lia|].
  destruct k; [destruct (String.eqb (idx2word m x) END)|];
    injection Hr as <- <- <-; simpl; lia.
Qed.

Lemma record_words_lookup it indices keep caps keep' caps' n i x k c :
  record_words m it indices keep caps = (keep', caps', n) →
  indices !! i = Some x → keep !! i = Some k → caps !! i = Some c →
  keep' !! i = Some (k && negb (String.eqb (idx2word m x) END)) ∧
  caps' !! i = Some (if k then <[it := idx2word m x]> c else c).
Proof.
  revert keep caps keep' caps' n i.
  induction indices as [|x0 indices IH]; intros keep caps keep' caps' n i Hr Hx Hk Hc;
    [by rewrite lookup_nil in Hx|].
  destruct keep as [|k0 keep]; [by rewrite lookup_nil in Hk|].
  destruct caps as [|c0 caps]; [by rewrite lookup_nil in Hc|].
  simpl in Hr.
  destruct (record_words m it indices keep caps) as [[k1 c1] n1] eqn:E.
  destruct i as [|i]; simpl in Hx, Hk, Hc.
  - injection Hx as <-. injection Hk as <-. injection Hc as <-.
    destruct k0; [destruct (String.eqb (idx2word m x0) END) eqn:Ee|];
      injection Hr as <- <- <-; simpl; rewrite ?Ee; done.
  - destruct (IH _ _ _ _ _ _ E Hx Hk Hc) as [H1 H2].
    destruct k0; [destruct (String.eqb (idx2word m x0) END)|];
      injection Hr as <- <- <-; simpl; done.
Qed.

Lemma record_words_count it indices keep caps keep' caps' n i x c :
  record_words m it indices keep caps = (keep', caps', n) →
  indices !! i = Some x → keep !! i = Some true → caps !! i = Some c →
  idx2word m x = END → 0 < n.
Proof.
  revert keep caps keep' caps' n i.
  induction indices as [|x0 indices IH]; intros keep caps keep' caps' n i Hr Hx Hk Hc He;
    [by rewrite lookup_nil in Hx|].
  destruct keep as [|k0 keep]; [by rewrite lookup_nil in Hk|].
  destruct caps as [|c0 caps]; [by rewrite lookup_nil in Hc|].
  simpl in Hr.
  destruct (record_words m it indices keep caps) as [[k1 c1] n1] eqn:E.
  destruct i as [|i]; simpl in Hx, Hk, Hc.
  - injection Hx as <-. injection Hk as ->. rewrite He in Hr. simpl in Hr.
    injection Hr as <- <- <-. lia.
  - pose proof (IH _ _ _ _ _ _ E Hx Hk Hc He).
    destruct k0; [destruct (String.eqb (idx2word m x0) END)|];
      injection Hr as <- <- <-; lia.
Qed.

End RecordWords.

(** ** The generation loop *)

Lemma lookup_map_list {A B : Type} (f : A → B) (l : list A) (i : nat) :
  map f l !! i = f <$> l !! i.
Proof. revert i. induction l as [|x l IH]; intros [|i]; simpl; auto. Qed.

Ltac unfold_bind := unfold mbind, result_bind in *.

Section GenLoop.
Context {Img Vec St Hid Rng : Type}.
Variable m : LSTMModel Img Vec St Hid.
Variable T : TorchOps Rng.
Variable cfg : GenerationConfig.
Variable x0 : result (list (list Vec)).
Variable B : nat.
(** The step-0 input has one entry per example (or raises). *)
Hypothesis Hx0 : ∀ xs, x0 = Ok xs → length xs = B.

Local Abbreviation M := (max_length cfg).

Lemma sample_rows_length (rows : list (list Z)) (r : Rng) :
  length (fst (sample_rows T rows r)) = length rows.
Proof.
  revert r. induction rows as [|p rows IH]; intros r; simpl; [done|].
  destruct (categorical_sample T p r) as [i r1].
  specialize (IH r1). destruct (sample_rows T rows r1) as [is r2]. simpl in *. lia.
Qed.

Lemma select_indices_length (output : list (list Z)) (r : Rng) :
  length (fst (select_indices T cfg output r)) = length output.
Proof.
  unfold select_indices. destruct (deterministic cfg); simpl.
  - apply length_map.
  - rewrite sample_rows_length. apply length_map.
Qed.

Lemma step_input_length (s : @gstate St Rng) (emb : list (list Vec)) :
  gwf B M s → step_input m x0 s = Ok emb → length emb = B.
Proof.
  intros (_ & Hc & _) Hi. unfold step_input in Hi.
  destruct (iter s =? 0); [by apply Hx0|].
  simpl in Hi. injection Hi as <-. rewrite !length_map. done.
Qed.

Lemma step_select_length (s : @gstate St Rng) indices hs r' :
  gwf B M s → step_select m T cfg x0 s = Ok (indices, hs, r') →
  length indices = B ∧ length hs = B.
Proof.
  intros Hwf Hs. unfold step_select in Hs. unfold_bind.
  destruct (step_input m x0 s) as [emb|e] eqn:Ei; [|discriminate].
  pose proof (step_input_length s emb Hwf Ei) as Hl.
  destruct Hwf as (_ & _ & Hh & _).
  unfold decoder_batch in Hs.
  pose proof (select_indices_length
    (map (λ o, squeeze1 (map (hidden2output m) o))
       (map fst (zip_with (lstm_seq m) (hidden s) emb))) (rng s)) as Hsel.
  destruct (select_indices T cfg _ (rng s)) as [ix r1].
  injection Hs as <- <- <-. cbn [fst] in Hsel.
  pose proof (length_zip_with (lstm_seq m) (hidden s) emb) as Hz. rewrite !length_map in Hsel. rewrite !length_map. lia.
Qed.

Lemma init_state_wf (r : Rng) : gwf B M (init_state m B M r).
Proof.
  unfold init_state, init_captions, gwf.
  cbn [keep_generating captions hidden iter].
  split; [apply length_replicate|]. split; [apply length_replicate|].
  split; [apply length_replicate|]. split; [|split].
  - apply Forall_replicate. rewrite length_insert, length_replicate. done.
  - intros i c j Hc _ Hj HjM. apply lookup_replicate in Hc as [-> _].
    rewrite list_lookup_insert_ne by lia. apply lookup_replicate. split; [done|lia].
  - intros i Hk. apply lookup_replicate in Hk as [? _]. discriminate.
Qed.

Lemma gen_body_wf (s s' : @gstate St Rng) :
  gwf B M s → gen_guard cfg B s = true → gen_body m T cfg x0 s = Ok s' →
  gwf B M s'.
Proof.
  intros Hwf Hg Hb. unfold gen_guard in Hg.
  apply andb_true_iff in Hg as [Hit _]. apply Nat.ltb_lt in Hit.
  unfold gen_body in Hb. unfold_bind.
  destruct (step_select m T cfg x0 s) as [[[ix hs] r1]|e] eqn:Es; [|discriminate].
  destruct (step_select_length s ix hs r1 Hwf Es) as [Hlix Hlhs].
  destruct (record_words m (iter s) ix (keep_generating s) (captions s))
    as [[keep' caps'] n] eqn:Er.
  injection Hb as <-.
  destruct Hwf as (Hk & Hc & Hh & Hcl & Hpad & Hfst).
  destruct (record_words_length m _ _ _ _ _ _ _ Er) as [Hk' Hc']; [lia|lia|].
  assert (Hlk : ∀ i c, caps' !! i = Some c →
            ∃ (x : nat) (k : bool) (c0 : list string), ix !! i = Some x ∧ keep_generating s !! i = Some k ∧
              captions s !! i = Some c0 ∧
              c = (if k then <[iter s := idx2word m x]> c0 else c0)).
  { intros i c Hi. pose proof (lookup_lt_Some _ _ _ Hi) as Hlt.
    destruct (lookup_lt_is_Some_2 ix i) as [x Hx]; [lia|].
    destruct (lookup_lt_is_Some_2 (keep_generating s) i) as [k Hkk]; [lia|].
    destruct (lookup_lt_is_Some_2 (captions s) i) as [c0 Hc0]; [lia|].
    destruct (record_words_lookup m _ _ _ _ _ _ _ i x k c0 Er Hx Hkk Hc0) as [_ H2].
    rewrite Hi in H2. injection H2 as ->. exists x, k, c0. done. }
  unfold gwf. cbn [keep_generating captions hidden iter]. split; [lia|]. split; [lia|]. split; [lia|]. split; [|split].
  - apply Forall_lookup. intros i c Hi.
    destruct (Hlk i c Hi) as (x & k & c0 & _ & _ & Hc0 & ->).
    pose proof (Forall_lookup_1 _ _ _ _ Hcl Hc0) as Hl0.
    destruct k; [rewrite length_insert|]; done.
  - intros i c j Hi Hj H1 HjM.
    destruct (Hlk i c Hi) as (x & k & c0 & _ & _ & Hc0 & ->).
    destruct k; [rewrite list_lookup_insert_ne by lia|];
      apply (Hpad i c0 j Hc0); lia.
  - intros. lia.
Qed.

Lemma reach_wf (s : @gstate St Rng) : reach m T cfg x0 B s → gwf B M s.
Proof.
  induction 1 as [r|s s' Hr IH Hg Hb].
  - apply init_state_wf.
  - by apply (gen_body_wf s).
Qed.

Lemma reach_iter_le (s : @gstate St Rng) :
  reach m T cfg x0 B s → iter s ≤ S M.
Proof.
  induction 1 as [r|s s' Hr IH Hg Hb]; [simpl; lia|].
  unfold gen_guard in Hg. apply andb_true_iff in Hg as [Hit _].
  apply Nat.ltb_lt in Hit.
  unfold gen_body in Hb. unfold_bind.
  destruct (step_select m T cfg x0 s) as [[[ix hs] r1]|e]; [|discriminate].
  destruct (record_words m (iter s) ix (keep_generating s) (captions s))
    as [[keep' caps'] n].
  injection Hb as <-. simpl. lia.
Qed.

Lemma reach_loop (fuel : nat) (s s'' : @gstate St Rng) :
  reach m T cfg x0 B s → gen_loop m T cfg x0 B fuel s = Ok s'' →
  reach m T cfg x0 B s''.
Proof.
  revert s. induction fuel as [|f IH]; intros s Hr Hl; simpl in Hl.
  - by injection Hl as <-.
  - destruct (gen_guard cfg B s) eqn:Hg; [|by injection Hl as <-].
    unfold_bind. destruct (gen_body m T cfg x0 s) as [s1|e] eqn:Hb; [|discriminate].
    apply (IH s1); [|done]. by apply (reach_step _ _ _ _ _ s).
Qed.

Lemma gen_body_unfold (s : @gstate St Rng) indices hs r' :
  step_select m T cfg x0 s = Ok (indices, hs, r') →
  gen_body m T cfg x0 s =
    let '(keep', caps', n) :=
      record_words m (iter s) indices (keep_generating s) (captions s) in
    Ok (mkG (S (iter s)) (num_complete s + n) keep' caps' hs r').
Proof. intros Hs. unfold gen_body. unfold_bind. by rewrite Hs. Qed.

(** An example that has completed keeps its flag and its caption buffer
    for the rest of the loop. *)
Lemma gen_loop_frozen (fuel : nat) (s s'' : @gstate St Rng) (i : nat) :
  reach m T cfg x0 B s → keep_generating s !! i = Some false →
  gen_loop m T cfg x0 B fuel s = Ok s'' →
  keep_generating s'' !! i = Some false ∧ captions s'' !! i = captions s !! i.
Proof.
  revert s. induction fuel as [|f IH]; intros s Hr Hk Hl; simpl in Hl.
  - by injection Hl as <-.
  - destruct (gen_guard cfg B s) eqn:Hg; [|by injection Hl as <-].
    unfold_bind. destruct (gen_body m T cfg x0 s) as [s1|e] eqn:Hb; [|discriminate].
    pose proof (reach_wf s Hr) as Hwf.
    pose proof (reach_step _ _ _ _ _ s s1 Hr Hg Hb) as Hr1.
    destruct (step_select m T cfg x0 s) as [[[ix hs] r1]|e] eqn:Es;
      [|unfold gen_body in Hb; unfold_bind; rewrite Es in Hb; discriminate].
    destruct (step_select_length s ix hs r1 Hwf Es) as [Hlix _].
    destruct Hwf as (HlK & HlC & _).
    pose proof (lookup_lt_Some _ _ _ Hk) as Hlt.
    destruct (lookup_lt_is_Some_2 ix i) as [x Hx]; [lia|].
    destruct (lookup_lt_is_Some_2 (captions s) i) as [c Hc]; [lia|].
    rewrite (gen_body_unfold s ix hs r1 Es) in Hb.
    destruct (record_words m (iter s) ix (keep_generating s) (captions s))
      as [[keep' caps'] n] eqn:Er.
    injection Hb as <-.
    destruct (record_words_lookup m _ _ _ _ _ _ _ i x false c Er Hx Hk Hc) as [H1 H2].
    destruct (IH _ Hr1 H1 Hl) as [H3 H4].
    split; [done|]. rewrite H4. simpl. rewrite H2, Hc. done.
Qed.

(** C4: an example that selects the end-of-sequence token while still
    generating is marked completed (its flag turns false and the completed
    counter grows) with [<end>] written at the current step position, and
    from then on no step of the loop changes its flag or its caption buffer,
    so the caption returned for it holds only the tokens chosen up to and
    including its completion step. *)
Theorem generate_end_token_completes_example (s s' : @gstate St Rng)
    indices hs r' (i ix : nat) :
  reach m T cfg x0 B s → gen_guard cfg B s = true →
  step_select m T cfg x0 s = Ok (indices, hs, r') →
  gen_body m T cfg x0 s = Ok s' →
  keep_generating s !! i = Some true → indices !! i = Some ix →
  idx2word m ix = END →
  keep_generating s' !! i = Some false ∧
  (∃ c, captions s !! i = Some c ∧
        captions s' !! i = Some (<[iter s := END]> c)) ∧
  num_complete s < num_complete s' ∧
  (∀ fuel s'', gen_loop m T cfg x0 B fuel s' = Ok s'' →
     keep_generating s'' !! i = Some false ∧
     captions s'' !! i = captions s' !! i).
Proof.
  intros Hr Hg Es Hb Hk Hx Hend.
  pose proof (reach_step _ _ _ _ _ s s' Hr Hg Hb) as Hr'.
  pose proof (reach_wf s Hr) as (HlK & HlC & _).
  pose proof (lookup_lt_Some _ _ _ Hk) as Hlt.
  destruct (lookup_lt_is_Some_2 (captions s) i) as [c Hc]; [lia|].
  rewrite (gen_body_unfold s indices hs r' Es) in Hb.
  destruct (record_words m (iter s) indices (keep_generating s) (captions s))
    as [[keep' caps'] n] eqn:Er.
  pose proof (record_words_count m _ _ _ _ _ _ _ i ix c Er Hx Hk Hc Hend) as Hn.
  destruct (record_words_lookup m _ _ _ _ _ _ _ i ix true c Er Hx Hk Hc) as [H1 H2].
  injection Hb as Hs'.
  assert (Hk' : keep_generating s' !! i = Some false).
  { rewrite <- Hs'. simpl. rewrite H1, Hend. done. }
  split; [done|]. split; [|split].
  - exists c. split; [done|]. rewrite <- Hs'. simpl. rewrite H2, Hend. done.
  - rewrite <- Hs'. simpl. lia.
  - intros fuel s'' Hl. by apply (gen_loop_frozen fuel s' s'' i).
Qed.

(** C2 (amended): at every step after the first, each example of the batch,
    completed or not, is fed the embedding of the word its caption buffer
    holds at the previous position: the word it was given at the previous
    step while it was still generating, and [<pad>] once it had completed
    before that step. *)
Theorem generate_feeds_recorded_word (s s' : @gstate St Rng) indices hs r' :
  reach m T cfg x0 B s → gen_guard cfg B s = true →
  step_select m T cfg x0 s = Ok (indices, hs, r') →
  gen_body m T cfg x0 s = Ok s' →
  step_input m x0 s' =
    Ok (zip_with (λ (k : bool) (ix : nat), [word_embedding m
                             (vocab m (if k then idx2word m ix else PAD))])
                 (keep_generating s) indices).
Proof.
  intros Hr Hg Es Hb.
  pose proof (reach_wf s Hr) as Hwf.
  pose proof (step_select_length s indices hs r' Hwf Es) as [Hlix _].
  destruct Hwf as (HlK & HlC & _ & Hcl & Hpad & Hfst).
  unfold gen_guard in Hg. apply andb_true_iff in Hg as [Hit _].
  apply Nat.ltb_lt in Hit.
  rewrite (gen_body_unfold s indices hs r' Es) in Hb.
  destruct (record_words m (iter s) indices (keep_generating s) (captions s))
    as [[keep' caps'] n] eqn:Er.
  destruct (record_words_length m _ _ _ _ _ _ _ Er) as [_ HlC']; [lia|lia|].
  injection Hb as <-.
  unfold step_input. simpl. f_equal. apply list_eq. intros i.
  rewrite !lookup_map_list, lookup_zip_with.
  destruct (decide (i < B)) as [Hi|Hi].
  - destruct (lookup_lt_is_Some_2 indices i) as [x Hx]; [lia|].
    destruct (lookup_lt_is_Some_2 (keep_generating s) i) as [k Hk]; [lia|].
    destruct (lookup_lt_is_Some_2 (captions s) i) as [c Hc]; [lia|].
    destruct (record_words_lookup m _ _ _ _ _ _ _ i x k c Er Hx Hk Hc) as [_ H2].
    rewrite H2, Hk, Hx. simpl. rewrite Nat.sub_0_r, nth_lookup.
    pose proof (Forall_lookup_1 _ _ _ _ Hcl Hc) as Hlc. simpl in Hlc.
    destruct k.
    + rewrite list_lookup_insert_eq by lia. done.
    + rewrite (Hpad i c (iter s) Hc) by (try specialize (Hfst i Hk); lia). done.
  - rewrite (lookup_ge_None_2 (keep_generating s) i) by lia.
    rewrite (lookup_ge_None_2 caps' i) by lia. done.
Qed.

End GenLoop.

Section GenFacts.
Context {Img Vec St Hid Rng : Type}.
Variable m : LSTMModel Img Vec St Hid.
Variable T : TorchOps Rng.

Lemma gen_body_iter cfg x0 (s s' : @gstate St Rng) :
  gen_body m T cfg x0 s = Ok s' → iter s' = S (iter s).
Proof.
  unfold gen_body. unfold_bind.
  destruct (step_select m T cfg x0 s) as [[[ix hs] r1]|e]; [|discriminate].
  destruct (record_words m (iter s) ix (keep_generating s) (captions s))
    as [[keep' caps'] n].
  intros H. injection H as <-. done.
Qed.

(** The loop makes at most [max_len + 1 - iter] iterations: any larger
    fuel gives the same result. *)
Lemma gen_loop_fuel_irrelevant cfg x0 B fuel (s : @gstate St Rng) :
  S (max_length cfg) - iter s ≤ fuel →
  gen_loop m T cfg x0 B fuel s = gen_while m T cfg x0 B s.
Proof.
  unfold gen_while. revert s. induction fuel as [|f IH]; intros s Hf.
  - replace (S (max_length cfg) - iter s) with 0 by lia. done.
  - destruct (S (max_length cfg) - iter s) as [|k] eqn:Ek.
    + simpl. unfold gen_guard.
      replace (iter s <? max_length cfg + 1) with false
        by (symmetry; apply Nat.ltb_ge; lia). done.
    + simpl. destruct (gen_guard cfg B s); [|done]. unfold_bind.
      destruct (gen_body m T cfg x0 s) as [s1|e] eqn:Hb; [|done].
      pose proof (gen_body_iter cfg x0 s s1 Hb) as Hi.
      rewrite IH by lia. f_equal. lia.
Qed.

Lemma gen_while_bounded cfg x0 B (r : Rng) (s : @gstate St Rng) :
  (∀ xs, x0 = Ok xs → length xs = B) →
  gen_while m T cfg x0 B (init_state m B (max_length cfg) r) = Ok s →
  iter s ≤ S (max_length cfg) ∧ length (captions s) = B.
Proof.
  intros Hx0 Hw.
  pose proof (reach_loop m T cfg x0 B _ _ _ (reach_init m T cfg x0 B r) Hw) as Hr.
  split; [by apply (reach_iter_le m T cfg x0 B)|].
  by destruct (reach_wf m T cfg x0 B Hx0 s Hr) as (_ & ? & _).
Qed.

Lemma generate_ok_length (images : list Img) cfg (r r' : Rng) out :
  generate m T images cfg r = Ok (out, r') → length out = length images.
Proof.
  unfold generate. unfold_bind.
  destruct (gen_while m T cfg _ _ _) as [s|e] eqn:Hw; [|discriminate].
  intros H. injection H as <- _. rewrite length_map.
  eapply (gen_while_bounded cfg _ _ r s); [|exact Hw].
  intros xs Hx. simpl in Hx. discriminate.
Qed.

Lemma generate_step0_raises (img : Img) (images : list Img) cfg (r : Rng) :
  generate m T (img :: images) cfg r =
    Err "Expected tensor for argument #1 'indices' to have one of the following scalar types: Long, Int".
Proof.
  unfold generate, gen_while, gen_loop, gen_guard. simpl.
  rewrite Nat.add_1_r. simpl. done.
Qed.

Lemma step_input_set_rng x0 (s : @gstate St Rng) r :
  step_input m x0 (set_rng s r) = step_input m x0 s.
Proof. done. Qed.

Lemma gen_body_set_rng cfg x0 (s : @gstate St Rng) r :
  deterministic cfg = true →
  gen_body m T cfg x0 (set_rng s r) = rmap (λ s', set_rng s' r) (gen_body m T cfg x0 s).
Proof.
  intros Hdet. unfold gen_body, step_select. rewrite step_input_set_rng.
  unfold_bind. destruct (step_input m x0 s) as [emb|e]; [|done].
  unfold select_indices. rewrite Hdet. cbn.
  destruct (decoder_batch m (hidden s) emb) as [outs hs'].
  destruct (record_words m (iter s) _ (keep_generating s) (captions s))
    as [[keep' caps'] n]. done.
Qed.

Lemma gen_loop_set_rng cfg x0 B fuel (s : @gstate St Rng) r :
  deterministic cfg = true →
  gen_loop m T cfg x0 B fuel (set_rng s r) =
    rmap (λ s', set_rng s' r) (gen_loop m T cfg x0 B fuel s).
Proof.
  intros Hdet. revert s. induction fuel as [|f IH]; intros s; [done|].
  simpl. change (gen_guard cfg B (set_rng s r)) with (gen_guard cfg B s).
  destruct (gen_guard cfg B s); [|done].
  rewrite gen_body_set_rng by done. unfold_bind.
  destruct (gen_body m T cfg x0 s) as [s1|e]; [|done].
  apply IH.
Qed.

End GenFacts.

Lemma generate_fst_set_rng {Img Vec St Hid Rng : Type} (m : LSTMModel Img Vec St Hid)
    (T : TorchOps Rng) (images : list Img) cfg (r r0 : Rng) :
  deterministic cfg = true →
  rmap fst (generate m T images cfg r) =
    rmap (λ s, map strip_special (captions s))
      (gen_while m T cfg (word_embedder m (FloatT (map (λ im, [features m im]) images)))
         (length images) (init_state m (length images) (max_length cfg) r0)).
Proof.
  intros Hdet. unfold generate, gen_while. cbn [iter init_state].
  change (init_state m (length images) (max_length cfg) r)
    with (set_rng (init_state m (length images) (max_length cfg) r0) r).
  rewrite gen_loop_set_rng by done. unfold_bind.
  destruct (gen_loop m T cfg _ _ _ _) as [s|e]; done.
Qed.

(** C6: with [deterministic = true] the token chosen for an example is the
    [max] index of the log-softmax of its scores, which is the lowest index
    holding the maximum; no random draw is made, so the loop and
    [generate] give the same captions whatever the state of the random
    source, and two calls on the same images give the same output. *)
Theorem generate_greedy_deterministic {Img Vec St Hid Rng : Type}
    (m : LSTMModel Img Vec St Hid) (T : TorchOps Rng) (cfg : GenerationConfig) :
  deterministic cfg = true →
  (∀ output r, fst (select_indices T cfg output r) =
                 map (λ row, max_index (log_softmax T row)) output) ∧
  (∀ row, row ≠ [] → first_argmax row (max_index row)) ∧
  (∀ x0 B fuel (s : @gstate St Rng) r1 r2,
     rmap captions (gen_loop m T cfg x0 B fuel (set_rng s r1)) =
     rmap captions (gen_loop m T cfg x0 B fuel (set_rng s r2))) ∧
  (∀ images r1 r2,
     rmap fst (generate m T images cfg r1) = rmap fst (generate m T images cfg r2)).
Proof.
  intros Hdet. split; [|split; [|split]].
  - intros output r. unfold select_indices. rewrite Hdet. done.
  - apply max_index_spec.
  - intros x0 B fuel s r1 r2. rewrite !gen_loop_set_rng by done.
    destruct (gen_loop m T cfg x0 B fuel s); done.
  - intros images r1 r2.
    rewrite (generate_fst_set_rng m T images cfg r1 r1),
            (generate_fst_set_rng m T images cfg r2 r1) by done.
    done.
Qed.

(** C1 (code bug): [generate] never returns captions for a non-empty batch:
    its step-0 input is the float image features passed through
    [word_embedder], which raises. Independently, when the step-0 input is
    a valid one, the loop writes its step-0 token over the [<start>] slot,
    so a caption can keep [max_length + 1] tokens: with [max_length = 3] the
    concrete model below returns four tokens. *)
Theorem generate_caption_length_fails :
  (∀ {Img Vec St Hid Rng : Type} (m : LSTMModel Img Vec St Hid)
     (T : TorchOps Rng) (img : Img) cfg (r : Rng),
     ∃ msg, generate m T [img] cfg r = Err msg) ∧
  rmap (λ s, map strip_special (captions s))
    (gen_while Demo.model Demo.torch (Demo.greedy 3) (Ok [[5]]) 1
       (init_state Demo.model 1 3 0)) = Ok [["a"; "a"; "a"; "a"]].
Proof.
  split.
  - intros Img Vec St Hid Rng m T img cfg r. eexists.
    apply generate_step0_raises.
  - vm_compute. reflexivity.
Qed.

(** C10 (code bug): the loop is bounded (see [gen_while_bounded] and
    [gen_loop_fuel_irrelevant]), but [generate] returns a list only for an
    empty batch; on every non-empty batch it raises at step 0. *)
Theorem generate_returns_only_on_empty_batch {Img Vec St Hid Rng : Type}
    (m : LSTMModel Img Vec St Hid) (T : TorchOps Rng) cfg (r : Rng) :
  generate m T [] cfg r = Ok ([], r) ∧
  ∀ (img : Img) images, ∃ msg, generate m T (img :: images) cfg r = Err msg.
Proof.
  split.
  - unfold generate, gen_while, gen_loop, gen_guard. simpl.
    rewrite andb_false_r. done.
  - intros img images. eexists. apply generate_step0_raises.
Qed.

(** ** Witnesses and counterexamples of the generation claims *)

Lemma generate_end_token_completes_example_witness :
  (∀ xs, Demo.x0 = Ok xs → length xs = 2) ∧
  reach Demo.model Demo.torch (Demo.greedy 3) Demo.x0 2 Demo.s0 ∧
  gen_guard (Demo.greedy 3) 2 Demo.s0 = true ∧
  step_select Demo.model Demo.torch (Demo.greedy 3) Demo.x0 Demo.s0 = Ok ([2; 3], [1; 1], 0) ∧
  gen_body Demo.model Demo.torch (Demo.greedy 3) Demo.x0 Demo.s0 = Ok Demo.s1 ∧
  keep_generating Demo.s0 !! 0 = Some true ∧ [2; 3] !! 0 = Some 2 ∧
  idx2word Demo.model 2 = END ∧
  (keep_generating Demo.s1 !! 0 = Some false ∧
   (∃ c, captions Demo.s0 !! 0 = Some c ∧
         captions Demo.s1 !! 0 = Some (<[iter Demo.s0 := END]> c)) ∧
   num_complete Demo.s0 < num_complete Demo.s1 ∧
   (∀ fuel s'', gen_loop Demo.model Demo.torch (Demo.greedy 3) Demo.x0 2 fuel Demo.s1 = Ok s'' →
      keep_generating s'' !! 0 = Some false ∧
      captions s'' !! 0 = captions Demo.s1 !! 0)).
Proof.
  assert (Hx0 : ∀ xs, Demo.x0 = Ok xs → length xs = 2)
    by (intros xs H; injection H as <-; reflexivity).
  assert (Hr : reach Demo.model Demo.torch (Demo.greedy 3) Demo.x0 2 Demo.s0)
    by apply reach_init.
  assert (Hg : gen_guard (Demo.greedy 3) 2 Demo.s0 = true) by reflexivity.
  assert (Es : step_select Demo.model Demo.torch (Demo.greedy 3) Demo.x0 Demo.s0
               = Ok ([2; 3], [1; 1], 0)) by (vm_compute; reflexivity).
  assert (Hb : gen_body Demo.model Demo.torch (Demo.greedy 3) Demo.x0 Demo.s0
               = Ok Demo.s1) by (vm_compute; reflexivity).
  exact (conj Hx0 (conj Hr (conj Hg (conj Es (conj Hb (conj eq_refl (conj eq_refl
          (conj eq_refl
            (generate_end_token_completes_example Demo.model Demo.torch
               (Demo.greedy 3) Demo.x0 2 Hx0 Demo.s0 Demo.s1 [2; 3] [1; 1] 0 0 2
               Hr Hg Es Hb eq_refl eq_refl eq_refl))))))))).
Defined.

Lemma generate_feeds_recorded_word_witness :
  (∀ xs, Demo.x0 = Ok xs → length xs = 2) ∧
  reach Demo.model Demo.torch (Demo.greedy 3) Demo.x0 2 Demo.s1 ∧
  gen_guard (Demo.greedy 3) 2 Demo.s1 = true ∧
  step_select Demo.model Demo.torch (Demo.greedy 3) Demo.x0 Demo.s1 = Ok ([3; 3], [2; 2], 0) ∧
  gen_body Demo.model Demo.torch (Demo.greedy 3) Demo.x0 Demo.s1 = Ok Demo.s2 ∧
  step_input Demo.model Demo.x0 Demo.s2 =
    Ok (zip_with (λ (k : bool) (ix : nat),
                    [word_embedding Demo.model
                       (vocab Demo.model (if k then idx2word Demo.model ix else PAD))])
                 (keep_generating Demo.s1) [3; 3]).
Proof.
  assert (Hx0 : ∀ xs, Demo.x0 = Ok xs → length xs = 2)
    by (intros xs H; injection H as <-; reflexivity).
  assert (Hb0 : gen_body Demo.model Demo.torch (Demo.greedy 3) Demo.x0 Demo.s0
                = Ok Demo.s1) by (vm_compute; reflexivity).
  assert (Hr : reach Demo.model Demo.torch (Demo.greedy 3) Demo.x0 2 Demo.s1)
    by (apply (reach_step _ _ _ _ _ Demo.s0); [apply reach_init|reflexivity|exact Hb0]).
  assert (Hg : gen_guard (Demo.greedy 3) 2 Demo.s1 = true) by reflexivity.
  assert (Es : step_select Demo.model Demo.torch (Demo.greedy 3) Demo.x0 Demo.s1
               = Ok ([3; 3], [2; 2], 0)) by (vm_compute; reflexivity).
  assert (Hb : gen_body Demo.model Demo.torch (Demo.greedy 3) Demo.x0 Demo.s1
               = Ok Demo.s2) by (vm_compute; reflexivity).
  exact (conj Hx0 (conj Hr (conj Hg (conj Es (conj Hb
          (generate_feeds_recorded_word Demo.model Demo.torch (Demo.greedy 3)
             Demo.x0 2 Hx0 Demo.s1 Demo.s2 [3; 3] [2; 2] 0 Hr Hg Es Hb)))))).
Defined.

(** C2 as stated fails. Example 0 completes at step 0 and gets token 3 at
    step 1, yet at step 2 it is fed the embedding of [<pad>] (id 0), not
    that of token 3. *)
Lemma generate_feeds_previous_token_counterexample :
  gen_body Demo.model Demo.torch (Demo.greedy 3) Demo.x0 Demo.s0 = Ok Demo.s1 ∧
  keep_generating Demo.s1 !! 0 = Some false ∧
  step_select Demo.model Demo.torch (Demo.greedy 3) Demo.x0 Demo.s1 = Ok ([3; 3], [2; 2], 0) ∧
  gen_body Demo.model Demo.torch (Demo.greedy 3) Demo.x0 Demo.s1 = Ok Demo.s2 ∧
  step_input Demo.model Demo.x0 Demo.s2 = Ok [[word_embedding Demo.model 0]; [word_embedding Demo.model 3]] ∧
  step_input Demo.model Demo.x0 Demo.s2 ≠
    Ok (map (λ ix, [word_embedding Demo.model ix]) [3; 3]).
Proof.
  split; [vm_compute; reflexivity|].
  split; [reflexivity|].
  split; [vm_compute; reflexivity|].
  split; [vm_compute; reflexivity|].
  split; [vm_compute; reflexivity|].
  vm_compute. intros H. injection H. discriminate.
Qed.

Lemma generate_greedy_deterministic_witness :
  deterministic (Demo.greedy 3) = true ∧
  (∀ output r, fst (select_indices Demo.torch (Demo.greedy 3) output r) =
                 map (λ row, max_index (log_softmax Demo.torch row)) output) ∧
  (∀ row, row ≠ [] → first_argmax row (max_index row)) ∧
  (∀ x0 B fuel (s : @gstate nat nat) r1 r2,
     rmap captions (gen_loop Demo.model Demo.torch (Demo.greedy 3) x0 B fuel (set_rng s r1)) =
     rmap captions (gen_loop Demo.model Demo.torch (Demo.greedy 3) x0 B fuel (set_rng s r2))) ∧
  (∀ images r1 r2,
     rmap fst (generate Demo.model Demo.torch images (Demo.greedy 3) r1) =
     rmap fst (generate Demo.model Demo.torch images (Demo.greedy 3) r2)).
Proof.
  split; [reflexivity|].
  exact (generate_greedy_deterministic Demo.model Demo.torch (Demo.greedy 3) eq_refl).
Defined.

(** ** Teacher-forced scoring *)

Lemma forward_shape_batched (N L E V : nat) :
  2 ≤ N → 1 ≤ L → forward_shape N N L E V = Ok [N; V; L].
Proof.
  intros HN HL. destruct N as [|[|n]]; [lia|lia|].
  destruct L as [|l]; [lia|].
  unfold forward_shape, squeeze_all, linear_shape, unsqueeze, cat_shape. simpl.
  rewrite bool_decide_eq_true_2 by done. simpl. done.
Qed.

Lemma forward_shape_cases (N Nc L E V : nat) :
  forward_shape N Nc L E V =
    if N =? 1 then Err "Tensors must have same number of dimensions"
    else if Nc =? N then Ok [N; V; S (pred L)]
    else Err "Sizes of tensors must match except in dimension 1".
Proof.
  destruct (Nat.eq_dec Nc N) as [->|Hn].
  - rewrite Nat.eqb_refl.
    destruct N as [|[|n]];
      unfold forward_shape, squeeze_all, linear_shape, unsqueeze, cat_shape; simpl;
      try (rewrite bool_decide_eq_true_2 by done); done.
  - rewrite (proj2 (Nat.eqb_neq _ _) Hn).
    destruct N as [|[|n]];
      unfold forward_shape, squeeze_all, linear_shape, unsqueeze, cat_shape; simpl;
      try (rewrite bool_decide_eq_false_2 by congruence); done.
Qed.

Lemma forward_cases {Img Vec St Hid : Type} (m : LSTMModel Img Vec St Hid)
    (images : list Img) (captions : list (list nat)) :
  forward m images captions =
    if length images =? 1 then Err "Tensors must have same number of dimensions"
    else if length captions =? length images then
      Ok (zip_with (forward_example m) images captions)
    else Err "Sizes of tensors must match except in dimension 1".
Proof.
  unfold forward. rewrite forward_shape_cases. unfold_bind.
  destruct (length images =? 1); [done|]. by destruct (length captions =? length images).
Qed.

Lemma lstm_seq_length {Img Vec St Hid : Type} (m : LSTMModel Img Vec St Hid)
    (s : St) (xs : list Vec) :
  length (fst (lstm_seq m s xs)) = length xs.
Proof.
  revert s. induction xs as [|x xs IH]; intros s; simpl; [done|].
  destruct (decoder_cell m s x) as [s1 h]. specialize (IH s1).
  destruct (lstm_seq m s1 xs) as [hs s2]. simpl in *. lia.
Qed.

Lemma removelast_take {A : Type} (c : list A) :
  removelast c = take (length c - 1) c.
Proof.
  induction c as [|x c IH]; [done|].
  destruct c as [|y c]; [done|].
  change (removelast (x :: y :: c)) with (x :: removelast (y :: c)).
  rewrite IH. simpl. rewrite Nat.sub_0_r. done.
Qed.

(** On a batch of at least two images with as many target captions, all
    of length [L >= 1], [forward] returns one score tensor per example, of
    shape (vocabulary, L): the batch output has shape (N, V, L). The
    decoder of example [i] runs from the zero state on the image features
    followed by the embeddings of target tokens [0 .. L-2] (never on its
    own predictions), and the score of word [v] at position [t] is entry
    [v] of [hidden2output] of the decoder output at position [t]. *)
Lemma forward_teacher_forced_scores {Img Vec St Hid : Type}
    (m : LSTMModel Img Vec St Hid) (images : list Img)
    (captions : list (list nat)) (L : nat) :
  2 ≤ length images → length captions = length images →
  Forall (λ c, length c = L) captions → 1 ≤ L →
  (∀ h, length (hidden2output m h) = vocab_size m) →
  forward_shape (length images) (length images) L (embedding_size m) (vocab_size m)
    = Ok [length images; vocab_size m; L] ∧
  ∃ out, forward m images captions = Ok out ∧ length out = length images ∧
    ∀ i img c, images !! i = Some img → captions !! i = Some c →
      let hs := fst (lstm_seq m (decoder_zero m)
                       (features m img :: map (word_embedding m) (take (L - 1) c))) in
      ∃ o, out !! i = Some o ∧ length hs = L ∧
        length o = vocab_size m ∧ Forall (λ row, length row = L) o ∧
        ∀ v t, v < vocab_size m → t < L →
          (o !! v ≫= (λ row, row !! t)) = (hs !! t ≫= (λ h, hidden2output m h !! v)).
Proof.
  intros HN Hlc Hc HL Hout.
  assert (HL0 : match captions with c :: _ => length c | [] => 0 end = L).
  { destruct captions as [|c0 cs]; [simpl in Hlc; lia|]. by inversion Hc. }
  pose proof (forward_shape_batched (length images) L (embedding_size m) (vocab_size m) HN HL) as Hsh.
  split; [done|].
  exists (zip_with (forward_example m) images captions).
  split; [unfold forward; rewrite HL0, Hlc, Hsh; done|].
  split; [rewrite length_zip_with; lia|].
  intros i img c Hi Hci. cbv zeta.
  pose proof (Forall_lookup_1 _ _ _ _ Hc Hci) as Hcl. simpl in Hcl.
  exists (forward_example m img c).
  split; [rewrite lookup_zip_with, Hi, Hci; done|].
  unfold forward_example. rewrite removelast_take, Hcl.
  set (hs := fst (lstm_seq m (decoder_zero m)
                   (features m img :: map (word_embedding m) (take (L - 1) c)))).
  assert (Hhs : length hs = L).
  { unfold hs. rewrite lstm_seq_length. simpl. rewrite length_map, length_take. lia. }
  split; [done|]. unfold permute_vocab.
  split; [rewrite length_map, length_seq; done|].
  split.
  - apply Forall_lookup. intros v row Hv.
    rewrite lookup_map_list in Hv.
    destruct (seq 0 (vocab_size m) !! v) as [v'|]; [|discriminate].
    injection Hv as <-. rewrite !length_map. done.
  - intros v t Hv Ht.
    rewrite lookup_map_list, lookup_seq_lt by done. simpl.
    rewrite lookup_map_list, lookup_map_list.
    destruct (lookup_lt_is_Some_2 hs t) as [h Hh]; [lia|].
    rewrite Hh. simpl.
    destruct (lookup_lt_is_Some_2 (hidden2output m h) v) as [z Hz];
      [rewrite Hout; done|].
    rewrite Hz, nth_lookup, Hz. done.
Qed.

(** C3 (code bug): on a batch of one image [forward] raises, whatever the
    target captions. [features.squeeze_()] drops every dimension of size 1,
    the batch dimension included (the source comment expects
    (N, embedding_size)), so the features become 1-D, then 2-D after
    [unsqueeze(1)], and [torch.cat] with the 3-D caption embeddings
    fails. Targets of length 0 are scored at one position, not zero: the
    image step is always there. *)
Theorem forward_single_image_and_empty_targets {Img Vec St Hid : Type}
    (m : LSTMModel Img Vec St Hid) (img : Img) (captions : list (list nat))
    (images : list Img) (empties : list (list nat)) :
  forward m [img] captions = Err "Tensors must have same number of dimensions" ∧
  (2 ≤ length images → length empties = length images → Forall (λ c, c = []) empties →
     ∃ out, forward m images empties = Ok out ∧ length out = length images ∧
       Forall (Forall (λ row, length row = 1)) out).
Proof.
  split; [reflexivity|].
  intros HN Hl Hc. rewrite forward_cases.
  destruct (length images =? 1) eqn:E1; [apply Nat.eqb_eq in E1; lia|].
  rewrite Hl, Nat.eqb_refl. eexists. split; [reflexivity|].
  split; [rewrite length_zip_with; lia|].
  apply Forall_lookup. intros i o Hi.
  rewrite lookup_zip_with in Hi.
  destruct (images !! i) as [im|]; [|discriminate].
  destruct (empties !! i) as [c|] eqn:Ec; [|discriminate]. simpl in Hi.
  injection Hi as <-.
  rewrite (Forall_lookup_1 _ _ _ _ Hc Ec).
  unfold forward_example, permute_vocab. apply Forall_map, Forall_forall.
  intros v _. rewrite length_map, length_map, lstm_seq_length. reflexivity.
Qed.

Lemma forward_single_image_and_empty_targets_witness :
  forward Demo.model [10] [[3; 3]] = Err "Tensors must have same number of dimensions" ∧
  ∃ out, forward Demo.model [10; 11] [[]; []] = Ok out ∧ length out = 2 ∧
    Forall (Forall (λ row, length row = 1)) out.
Proof.
  destruct (forward_single_image_and_empty_targets Demo.model 10 [[3; 3]] [10; 11] [[]; []])
    as [H1 H2].
  split; [exact H1|]. apply H2; [simpl; lia|reflexivity|repeat constructor].
Defined.

(** ** The experiment driver *)


Ltac break_ok H :=
  repeat match type of H with
  | context [match ?x with Ok _ => _ | Err _ => _ end] =>
      let E := fresh "E" in destruct x eqn:E; [|discriminate H]
  | context [match ?p with pair _ _ => _ end] =>
      lazymatch p with
      | pair _ _ => fail
      | _ => destruct p
      end
  end.

Section DriverFacts.
Context {Img Mdl Opt : Type} (env : ExpEnv Img Mdl Opt) (cfg : ExpConfig).
Local Abbreviation Exp := (Experiment Img Mdl Opt).
Local Abbreviation W := (World Mdl Opt).

Lemma open_for_write_other (w w' : W) d f c k :
  open_for_write w d f c = Ok w' → k ≠ (d, f) → files w' !! k = files w !! k.
Proof.
  unfold open_for_write. case_decide; [|discriminate].
  intros [= <-] Hk. simpl. rewrite lookup_insert_ne; [done|]. congruence.
Qed.

Lemma open_for_write_same (w w' : W) d f c :
  open_for_write w d f c = Ok w' → files w' !! (d, f) = Some c.
Proof.
  unfold open_for_write. case_decide; [|discriminate].
  intros [= <-]. simpl. by simplify_map_eq.
Qed.

Lemma log_to_file_other (w w' : W) d f k :
  log_to_file_in_dir w d f = Ok w' → k ≠ (d, f) → files w' !! k = files w !! k.
Proof. unfold log_to_file_in_dir. apply open_for_write_other. Qed.

Lemma log_loss_files (w w' : W) fn f :
  log env cfg w fn = Ok w' → (f = "training_losses.txt" ∨ f = "val_losses.txt") → (fn = Some "epoch.log" ∨ fn = None) →
  files w' !! (ROOT_STATS_DIR env, f) = files w !! (ROOT_STATS_DIR env, f).
Proof.
  intros H Hf Hfn. unfold log in H. destruct (save cfg); [|by injection H as <-].
  unfold_bind.
  destruct (log_to_file_in_dir w _ _) as [w0|] eqn:E; [|discriminate].
  assert (files w0 !! (ROOT_STATS_DIR env, f) = files w !! (ROOT_STATS_DIR env, f)) as Hw0.
  { eapply log_to_file_other; [exact E|]. intros [=]. destruct Hf; subst; discriminate. }
  destruct Hfn as [-> | ->].
  - rewrite <- Hw0. eapply log_to_file_other; [exact H|].
    intros [=]. destruct Hf; subst; discriminate.
  - injection H as <-. exact Hw0.
Qed.

Lemma log_epoch_stats_loss_files (w w' : W) e f :
  log_epoch_stats env cfg w e = Ok w' → (f = "training_losses.txt" ∨ f = "val_losses.txt") →
  files w' !! (ROOT_STATS_DIR env, f) = files w !! (ROOT_STATS_DIR env, f).
Proof.
  unfold log_epoch_stats. unfold_bind. intros H Hf. break_ok H.
  eapply log_loss_files; eauto.
Qed.

Lemma save_model_loss_files (w w' : W) e f :
  save_model env cfg w e = Ok w' → (f = "training_losses.txt" ∨ f = "val_losses.txt") →
  files w' !! (ROOT_STATS_DIR env, f) = files w !! (ROOT_STATS_DIR env, f).
Proof.
  unfold save_model, torch_save. intros H Hf. destruct (save cfg); [|by injection H as <-].
  eapply open_for_write_other; [exact H|]. intros [=]. destruct Hf; subst; discriminate.
Qed.

Lemma plot_stats_loss_files (w w' : W) e b f :
  plot_stats env cfg w e b = Ok w' → (f = "training_losses.txt" ∨ f = "val_losses.txt") →
  files w' !! (ROOT_STATS_DIR env, f) = files w !! (ROOT_STATS_DIR env, f).
Proof.
  unfold plot_stats. unfold_bind. intros H Hf. break_ok H.
  destruct (negb _); [discriminate|].
  destruct (save cfg && b); [|by injection H as <-].
  eapply open_for_write_other; [exact H|]. intros [=]. destruct Hf; subst; discriminate.
Qed.

Lemma train_batches_fields (e e' : Exp) bs acc s :
  train_batches env e bs acc = Ok (e', s) →
  current_epoch e' = current_epoch e ∧ training_losses e' = training_losses e ∧
  val_losses e' = val_losses e.
Proof.
  revert e acc. induction bs as [|b bs IH]; intros e acc H; simpl in H.
  - by injection H as <- _.
  - unfold_bind. destruct (example_img e) eqn:Ei.
    + cbn in H. break_ok H. destruct (IH _ _ H) as (H1 & H2 & H3). done.
    + destruct (b_images b) as [|img imgs]; [discriminate|].
      destruct (show_image env img); [|discriminate]. cbn in H. break_ok H.
      destruct (IH _ _ H) as (H1 & H2 & H3). done.
Qed.

Lemma train_fields (e e' : Exp) l :
  train env e = Ok (e', l) →
  current_epoch e' = current_epoch e ∧ training_losses e' = training_losses e ∧
  val_losses e' = val_losses e.
Proof.
  unfold train. unfold_bind. intros H. break_ok H.
  injection H as <- _. eapply train_batches_fields; eauto.
Qed.


Lemma record_stats_spec (w w' : W) (e e' : Exp) tl vl ts vs :
  record_stats env cfg w e tl vl = Ok (w', e') →
  training_losses e = Some ts → val_losses e = Some vs →
  training_losses e' = Some (ts ++ [tl]) ∧ val_losses e' = Some (vs ++ [vl]) ∧
  current_epoch e' = current_epoch e ∧
  (save cfg = true →
     files w' !! (ROOT_STATS_DIR env, "training_losses.txt") = Some (FLosses (ts ++ [tl])) ∧
     files w' !! (ROOT_STATS_DIR env, "val_losses.txt") = Some (FLosses (vs ++ [vl]))).
Proof.
  unfold record_stats. intros H Ht Hv. rewrite Ht, Hv in H.
  destruct (save cfg).
  - unfold_bind.
    destruct (write_to_file_in_dir w _ _ _) as [w1|] eqn:E1; [|discriminate].
    destruct (write_to_file_in_dir w1 _ _ _) as [w2|] eqn:E2; [|discriminate].
    injection H as <- <-. simpl. do 3 (split; [done|]). intros _. split.
    + rewrite (open_for_write_other _ _ _ _ _ _ E2) by (intros [=]).
      exact (open_for_write_same _ _ _ _ _ E1).
    + exact (open_for_write_same _ _ _ _ _ E2).
  - injection H as <- <-. simpl. do 3 (split; [done|]). discriminate.
Qed.

Lemma run_epoch_tested start (w w' : W) (e e' : Exp) t t' ep :
  run_epoch env cfg start (w, e, t) ep = Ok (w', e', t') →
  t' = t ++ (if should_test start ep then [ep] else []).
Proof.
  unfold run_epoch. unfold_bind. intros H. break_ok H.
  injection H as _ _ <-. destruct (should_test start ep).
  - unfold_bind. break_ok E0. by injection E0 as <-.
  - injection E0 as <-. by rewrite app_nil_r.
Qed.

Lemma run_epoch_histories start (w w' : W) (e e' : Exp) t t' ep ts vs :
  run_epoch env cfg start (w, e, t) ep = Ok (w', e', t') →
  training_losses e = Some ts → val_losses e = Some vs →
  ∃ tl vl, training_losses e' = Some (ts ++ [tl]) ∧ val_losses e' = Some (vs ++ [vl]) ∧
    current_epoch e' = ep ∧
    (save cfg = true →
       files w' !! (ROOT_STATS_DIR env, "training_losses.txt") = Some (FLosses (ts ++ [tl])) ∧
       files w' !! (ROOT_STATS_DIR env, "val_losses.txt") = Some (FLosses (vs ++ [vl]))).
Proof.
  unfold run_epoch. unfold_bind. intros H Ht Hv. break_ok H.
  injection H as <- <- _.
  destruct (train_fields _ _ _ E1) as (Hc & Ht1 & Hv1).
  simpl in Hc, Ht1, Hv1. rewrite Ht in Ht1. rewrite Hv in Hv1.
  destruct (record_stats_spec _ _ _ _ _ _ _ _ E3 Ht1 Hv1) as (Ht2 & Hv2 & Hc2 & Hf).
  exists q, a1. split; [exact Ht2|]. split; [exact Hv2|].
  split; [congruence|].
  intros Hs. destruct (Hf Hs) as [Hf1 Hf2]. split.
  - rewrite (plot_stats_loss_files _ _ _ _ _ E6) by (left; done).
    rewrite (save_model_loss_files _ _ _ _ E5) by (left; done).
    rewrite (log_epoch_stats_loss_files _ _ _ _ E4) by (left; done).
    exact Hf1.
  - rewrite (plot_stats_loss_files _ _ _ _ _ E6) by (right; done).
    rewrite (save_model_loss_files _ _ _ _ E5) by (right; done).
    rewrite (log_epoch_stats_loss_files _ _ _ _ E4) by (right; done).
    exact Hf2.
Qed.


Lemma run_epochs_tested start (w w' : W) (e e' : Exp) t t' eps :
  run_epochs env cfg start (w, e, t) eps = Ok (w', e', t') →
  t' = t ++ List.filter (should_test start) eps.
Proof.
  revert w e t. induction eps as [|ep eps IH]; intros w e t H; cbn [run_epochs] in H.
  - injection H as <- <- <-. by rewrite app_nil_r.
  - unfold_bind. destruct (run_epoch env cfg start (w, e, t) ep) as [[[w1 e1] t1]|] eqn:E;
      [|cbn in H; discriminate].
    apply IH in H. apply run_epoch_tested in E. subst. simpl.
    destruct (should_test start ep); simpl; by rewrite <- app_assoc.
Qed.

Lemma run_tested (w w' : W) (e e' : Exp) tested :
  run env cfg w e = Ok (w', e', tested) →
  tested = List.filter (should_test (current_epoch e))
             (seq (current_epoch e) (num_epochs cfg - current_epoch e)).
Proof.
  unfold run. unfold_bind. intros H.
  destruct (run_epochs _ _ _ _ _) as [[[w1 e1] t1]|] eqn:E; [|cbn in H; discriminate].
  destruct (plot_stats _ _ _ _ _); [|cbn in H; discriminate]. injection H as _ _ <-.
  apply run_epochs_tested in E. exact E.
Qed.

Lemma run_epochs_histories start (w w' : W) (e e' : Exp) t t' eps ts vs :
  run_epochs env cfg start (w, e, t) eps = Ok (w', e', t') →
  training_losses e = Some ts → val_losses e = Some vs →
  ∃ ts' vs', training_losses e' = Some (ts ++ ts') ∧ val_losses e' = Some (vs ++ vs') ∧
    length ts' = length eps ∧ length vs' = length eps ∧
    (eps = [] → e' = e ∧ w' = w) ∧
    (∀ ep, last eps = Some ep → current_epoch e' = ep ∧
       (save cfg = true →
          files w' !! (ROOT_STATS_DIR env, "training_losses.txt") = Some (FLosses (ts ++ ts')) ∧
          files w' !! (ROOT_STATS_DIR env, "val_losses.txt") = Some (FLosses (vs ++ vs')))).
Proof.
  revert w e t ts vs. induction eps as [|ep eps IH]; intros w e t ts vs H Ht Hv; cbn [run_epochs] in H.
  - injection H as <- <- <-. exists [], []. rewrite !app_nil_r.
    do 4 (split; [done|]). split; [done|]. intros ep [=].
  - unfold_bind. destruct (run_epoch env cfg start (w, e, t) ep) as [[[w1 e1] t1]|] eqn:E;
      [|cbn in H; discriminate].
    destruct (run_epoch_histories _ _ _ _ _ _ _ _ _ _ E Ht Hv) as (tl & vl & Ht1 & Hv1 & Hc1 & Hf1).
    destruct (IH _ _ _ _ _ H Ht1 Hv1) as (ts' & vs' & Ht2 & Hv2 & Hl1 & Hl2 & Hnil & Hlast).
    exists (tl :: ts'), (vl :: vs'). rewrite <- !app_assoc in Ht2, Hv2. simpl in Ht2, Hv2.
    split; [exact Ht2|]. split; [exact Hv2|]. simpl. split; [lia|]. split; [lia|].
    split; [discriminate|].
    intros ep' Hep. destruct eps as [|ep2 eps].
    + simpl in Hep. injection Hep as <-. destruct (Hnil eq_refl) as [-> ->].
      destruct ts'; [|simpl in Hl1; lia]. destruct vs'; [|simpl in Hl2; lia].
      split; [exact Hc1|]. exact Hf1.
    + rewrite <- !app_assoc in Hlast. apply Hlast. exact Hep.
Qed.

Lemma last_seq_S a n : last (seq a (S n)) = Some (a + n).
Proof. rewrite seq_S. apply last_snoc. Qed.

End DriverFacts.

(** C5 (code bug): [experiment_dir] is [ROOT_STATS_DIR] (line 31) and
    [__load_experiment] creates it first (line 67), so the check of line 69
    always holds and the [else] branch (lines 78-79) never runs. With
    [load] set and no saved training history, [len(None)] raises instead
    of the experiment starting fresh. With [load] unset nothing creates the
    stats directory, so with [save] set the run raises at its first write
    to it. *)
Theorem load_experiment_crashes {Img Mdl Opt : Type} (env : ExpEnv Img Mdl Opt)
    (cfg : ExpConfig) (w : World Mdl Opt) (mdl : Mdl) (opt : Opt) :
  (load cfg = true → files w !! (ROOT_STATS_DIR env, "training_losses.txt") = None →
     ∃ msg, init_experiment env cfg w mdl opt = Err msg) ∧
  (load cfg = false → ROOT_STATS_DIR env ∉ dirs w → save cfg = true →
     init_experiment env cfg w mdl opt = Ok (w, fresh_experiment mdl opt) ∧
     ∃ msg, run env cfg w (fresh_experiment mdl opt) = Err msg).
Proof.
  split.
  - intros Hl Ht. unfold init_experiment, load_experiment. rewrite Hl.
    rewrite bool_decide_eq_true_2 by (unfold makedirs_exist_ok; simpl; set_solver).
    unfold read_file_in_dir, makedirs_exist_ok. cbn [files andb]. rewrite Ht.
    unfold_bind.
    destruct (files w !! (ROOT_STATS_DIR env, "val_losses.txt")) as [[]|]; simpl; eauto.
  - intros Hl Hd Hs. split; [unfold init_experiment; rewrite Hl; reflexivity|].
    unfold run. unfold_bind. cbn [current_epoch fresh_experiment].
    rewrite Nat.sub_0_r.
    destruct (num_epochs cfg) as [|n].
    + cbn [seq run_epochs]. unfold plot_stats. cbn. rewrite Hs. cbn.
      unfold open_for_write. rewrite decide_False by exact Hd. eauto.
    + cbn [seq run_epochs]. unfold run_epoch. unfold_bind.
      destruct (generate_example_caption env (fresh_experiment mdl opt)); [|eauto].
      cbn [should_test Nat.modulo Nat.eqb negb andb].
      destruct (train env (set_current_epoch (fresh_experiment mdl opt) 0)) as [[e1 tl]|] eqn:Et;
        [|eauto].
      destruct (train_fields env _ _ _ Et) as (_ & Ht & Hv).
      destruct (val env e1) as [vl|]; [|eauto].
      unfold record_stats. rewrite Ht, Hv. cbn. rewrite Hs. cbn.
      unfold write_to_file_in_dir, open_for_write. rewrite decide_False by exact Hd.
      eauto.
Qed.

(** C7 (amended): each epoch of [run] appends exactly one entry to each
    loss history, and [current_epoch] holds the index of the last epoch
    run. A run that starts with [current_epoch < num_epochs] and both
    histories of length [current_epoch], and that returns, ends with both
    histories of length [num_epochs], extending the initial ones, and with
    [current_epoch = num_epochs - 1]. With [save] set, the two history
    files hold the same lists. *)
Theorem run_history_lengths {Img Mdl Opt : Type} (env : ExpEnv Img Mdl Opt)
    (cfg : ExpConfig) (w w' : World Mdl Opt) (e e' : Experiment Img Mdl Opt)
    (tested : list nat) (ts vs : list Q) :
  run env cfg w e = Ok (w', e', tested) →
  training_losses e = Some ts → val_losses e = Some vs →
  length ts = current_epoch e → length vs = current_epoch e →
  current_epoch e < num_epochs cfg →
  ∃ ts' vs', training_losses e' = Some ts' ∧ val_losses e' = Some vs' ∧
    length ts' = num_epochs cfg ∧ length vs' = num_epochs cfg ∧
    current_epoch e' = num_epochs cfg - 1 ∧
    ts `prefix_of` ts' ∧ vs `prefix_of` vs' ∧
    (save cfg = true →
       files w' !! (ROOT_STATS_DIR env, "training_losses.txt") = Some (FLosses ts') ∧
       files w' !! (ROOT_STATS_DIR env, "val_losses.txt") = Some (FLosses vs')).
Proof.
  intros H Ht Hv Hlt Hlv Hn. unfold run in H. unfold_bind.
  destruct (run_epochs _ _ _ _ _) as [[[w1 e1] t1]|] eqn:E; [|cbn in H; discriminate].
  cbn in H. destruct (plot_stats env cfg w1 e1 true) as [w2|] eqn:Ep; [|discriminate].
  injection H as <- <- _.
  destruct (run_epochs_histories _ _ _ _ _ _ _ _ _ _ _ _ E Ht Hv)
    as (ts' & vs' & Ht1 & Hv1 & Hl1 & Hl2 & _ & Hlast).
  rewrite length_seq in Hl1, Hl2.
  destruct (num_epochs cfg - current_epoch e) as [|k] eqn:Hk; [lia|].
  destruct (Hlast _ (last_seq_S _ _)) as [Hc Hf].
  exists (ts ++ ts'), (vs ++ vs').
  split; [exact Ht1|]. split; [exact Hv1|].
  rewrite !length_app. split; [lia|]. split; [lia|]. split; [lia|].
  split; [by eexists|]. split; [by eexists|].
  intros Hs. destruct (Hf Hs) as [Hf1 Hf2]. split.
  - rewrite (plot_stats_loss_files _ _ _ _ _ _ _ Ep) by (left; done). exact Hf1.
  - rewrite (plot_stats_loss_files _ _ _ _ _ _ _ Ep) by (right; done). exact Hf2.
Qed.

(** C8 (amended): [__train] skips no batch. Whenever the epoch returns,
    its model, optimizer and loss sum are those of running every batch,
    in order, through the forward pass and the loss and then an optimizer
    step ([no_skip_epoch]); once an example image is set, the two are the
    same computation. The first batch of an epoch that starts with no
    example image sets it to its first image and shows it: if that batch
    is empty, [IndexError] is raised, and if showing the image raises, so
    does the epoch. An empty loader raises [ZeroDivisionError]. Otherwise
    the epoch loss is the sum divided by the number of batches. *)
Theorem train_processes_every_batch {Img Mdl Opt : Type} (env : ExpEnv Img Mdl Opt)
    (e : Experiment Img Mdl Opt) (bs : list (Batch Img)) (acc : Q) :
  (∀ e' s, train_batches env e bs acc = Ok (e', s) →
     no_skip_epoch env (model_state e) (optimizer_state e) bs acc =
       Ok (model_state e', optimizer_state e', s)) ∧
  (∀ img, example_img e = Some img →
     train_batches env e bs acc =
       rmap (λ '(mdl, opt, s), (set_params e (mdl, opt), s))
         (no_skip_epoch env (model_state e) (optimizer_state e) bs acc)) ∧
  (∀ b bs', bs = b :: bs' → example_img e = None → b_images b = [] →
     train_batches env e bs acc =
       Err "IndexError: index 0 is out of bounds for dimension 0 with size 0") ∧
  (∀ b bs' img imgs msg, bs = b :: bs' → example_img e = None →
     b_images b = img :: imgs → show_image env img = Err msg →
     train_batches env e bs acc = Err msg) ∧
  (train_loader env = [] → train env e = Err "ZeroDivisionError: division by zero") ∧
  (∀ e' l, train env e = Ok (e', l) →
     train_loader env ≠ [] ∧
     ∃ s, no_skip_epoch env (model_state e) (optimizer_state e) (train_loader env) 0%Q =
            Ok (model_state e', optimizer_state e', s) ∧
       l = Qdiv s (inject_Z (Z.of_nat (length (train_loader env))))).
Proof.
  assert (Hall : ∀ bs e acc e' s, train_batches env e bs acc = Ok (e', s) →
     no_skip_epoch env (model_state e) (optimizer_state e) bs acc =
       Ok (model_state e', optimizer_state e', s)).
  { clear. induction bs as [|b bs IH]; intros e acc e' s H; simpl in H.
    - by injection H as <- <-.
    - unfold_bind. simpl. unfold_bind.
      assert (He1 : ∀ e1, (match example_img e with
                 | Some _ => Ok e
                 | None => match b_images b with
                           | img :: _ => match show_image env img with
                                         | Ok _ => Ok (set_example_img e img)
                                         | Err m => Err m end
                           | [] => Err "IndexError: index 0 is out of bounds for dimension 0 with size 0"
                           end
                 end) = Ok e1 → model_state e1 = model_state e ∧ optimizer_state e1 = optimizer_state e).
      { intros e1. destruct (example_img e); [by intros [= <-]|].
        destruct (b_images b) as [|img imgs]; [discriminate|].
        destruct (show_image env img); [by intros [= <-]|discriminate]. }
      destruct (match example_img e with
                 | Some _ => Ok e
                 | None => match b_images b with
                           | img :: _ => match show_image env img with
                                         | Ok _ => Ok (set_example_img e img)
                                         | Err m => Err m end
                           | [] => Err "IndexError: index 0 is out of bounds for dimension 0 with size 0"
                           end
                 end) as [e1|msg]; [|discriminate].
      destruct (He1 e1 eq_refl) as [Hm Ho]. rewrite Hm, Ho in H.
      destruct (batch_loss env (model_state e) b) as [loss|msg]; [|discriminate].
      apply IH in H. simpl in H.
      destruct (optimizer_step env (model_state e) (optimizer_state e) b) as [mdl' opt'].
      exact H. }
  split; [|split; [|split; [|split; [|split]]]].
  - apply Hall.
  - intros img Hi. clear Hall. revert e acc Hi.
    induction bs as [|b bs IH]; intros e acc Hi; [by destruct e|].
    simpl. rewrite Hi. unfold_bind.
    destruct (batch_loss env (model_state e) b) as [loss|msg]; [|reflexivity].
    rewrite IH by exact Hi. simpl.
    destruct (optimizer_step env (model_state e) (optimizer_state e) b) as [mdl' opt'].
    cbn [fst snd]. destruct (no_skip_epoch env mdl' opt' bs (acc + loss)) as [[[m2 o2] s]|]; reflexivity.
  - intros b bs' -> Hi Hb. simpl. rewrite Hi, Hb. reflexivity.
  - intros b bs' img imgs msg -> Hi Hb Hs. simpl. rewrite Hi, Hb, Hs. reflexivity.
  - intros Hl. unfold train. rewrite Hl. reflexivity.
  - intros e' l H. unfold train in H. unfold_bind.
    destruct (train_batches env e (train_loader env) 0%Q) as [[e1 s]|] eqn:E;
      [|cbn in H; discriminate].
    cbn in H. unfold py_div_len in H.
    destruct (length (train_loader env) =? 0) eqn:Hz; [discriminate|].
    injection H as <- <-. split.
    + intros Hl. rewrite Hl in Hz. discriminate.
    + exists s. split; [apply Hall; exact E|reflexivity].
Qed.

(** C9 (amended): the test pass runs at the epochs [ep] of the run with
    [ep mod 10 = 0] and [ep] different from the starting epoch. The
    interval 10 is a constant of [run], not a configuration value. *)
Theorem run_tests_every_tenth_epoch {Img Mdl Opt : Type} (env : ExpEnv Img Mdl Opt)
    (cfg : ExpConfig) (w w' : World Mdl Opt) (e e' : Experiment Img Mdl Opt)
    (tested : list nat) :
  run env cfg w e = Ok (w', e', tested) →
  tested = List.filter (should_test (current_epoch e))
             (seq (current_epoch e) (num_epochs cfg - current_epoch e)) ∧
  ∀ ep, In ep tested ↔ current_epoch e < ep < num_epochs cfg ∧ ep mod 10 = 0.
Proof.
  intros H. apply run_tested in H. split; [exact H|].
  intros ep. rewrite H, filter_In, in_seq. unfold should_test.
  rewrite andb_true_iff, negb_true_iff, Nat.eqb_eq, Nat.eqb_neq. lia.
Qed.

Lemma load_experiment_crashes_witness :
  (∃ msg, init_experiment (DemoRun.env [DemoRun.full_batch]) (mkCfg 1 true true)
            DemoRun.empty_world 0 0 = Err msg) ∧
  init_experiment (DemoRun.env [DemoRun.full_batch]) (mkCfg 1 true false)
    DemoRun.empty_world 0 0 = Ok (DemoRun.empty_world, fresh_experiment 0 0) ∧
  ∃ msg, run (DemoRun.env [DemoRun.full_batch]) (mkCfg 1 true false)
           DemoRun.empty_world (fresh_experiment 0 0) = Err msg.
Proof.
  destruct (load_experiment_crashes (DemoRun.env [DemoRun.full_batch])
              (mkCfg 1 true true) DemoRun.empty_world 0 0) as [H1 _].
  destruct (load_experiment_crashes (DemoRun.env [DemoRun.full_batch])
              (mkCfg 1 true false) DemoRun.empty_world 0 0) as [_ H2].
  split; [apply H1; reflexivity|].
  apply H2; [reflexivity| |reflexivity].
  cbn. apply not_elem_of_empty.
Defined.

Lemma run_history_lengths_witness :
  ∃ w' e' tested ts' vs',
    run (DemoRun.env [DemoRun.full_batch]) (mkCfg 2 true false)
      (mkW {[DemoRun.root]} ∅) (fresh_experiment 0 0) = Ok (w', e', tested) ∧
    training_losses e' = Some ts' ∧ val_losses e' = Some vs' ∧
    length ts' = 2 ∧ length vs' = 2 ∧ current_epoch e' = 1 ∧
    files w' !! (DemoRun.root, "training_losses.txt") = Some (FLosses ts').
Proof.
  destruct (run (DemoRun.env [DemoRun.full_batch]) (mkCfg 2 true false)
              (mkW {[DemoRun.root]} ∅) (fresh_experiment 0 0))
    as [[[w' e'] tested]|] eqn:Hr; [|vm_compute in Hr; discriminate].
  destruct (run_history_lengths _ _ _ _ _ _ _ [] [] Hr eq_refl eq_refl eq_refl eq_refl)
    as (ts' & vs' & Ht & Hv & Hl1 & Hl2 & Hc & _ & _ & Hf); [simpl; lia|].
  exists w', e', tested, ts', vs'.
  split; [reflexivity|]. split; [exact Ht|]. split; [exact Hv|].
  split; [exact Hl1|]. split; [exact Hl2|]. split; [exact Hc|].
  apply Hf. reflexivity.
Defined.

(** C7 as stated: after a fresh run of one epoch, one epoch is complete
    and both histories have one entry, but [current_epoch] is 0. *)
Lemma run_current_epoch_counterexample :
  rmap (λ '(_, e', _), (current_epoch e', option_map length (training_losses e'),
                       option_map length (val_losses e')))
    (run (DemoRun.env [DemoRun.full_batch]) (mkCfg 1 false false)
       DemoRun.empty_world (fresh_experiment 0 0)) = Ok (0, Some 1, Some 1).
Proof. vm_compute. reflexivity. Qed.

Lemma train_processes_every_batch_witness :
  (∃ e' s,
     train_batches (DemoRun.env []) (fresh_experiment 0 0)
       [DemoRun.full_batch; DemoRun.empty_batch] 0%Q = Ok (e', s) ∧
     no_skip_epoch (DemoRun.env []) 0 0 [DemoRun.full_batch; DemoRun.empty_batch] 0%Q =
       Ok (model_state e', optimizer_state e', s)) ∧
  train_batches (DemoRun.env []) (mkE 0 (Some []) (Some []) 0 0 (Some 1))
    [DemoRun.empty_batch] 0%Q =
    rmap (λ '(mdl, opt, s), (set_params (mkE 0 (Some []) (Some []) 0 0 (Some 1)) (mdl, opt), s))
      (no_skip_epoch (DemoRun.env []) 0 0 [DemoRun.empty_batch] 0%Q) ∧
  train_batches (DemoRun.env []) (fresh_experiment 0 0) [DemoRun.empty_batch] 0%Q =
    Err "IndexError: index 0 is out of bounds for dimension 0 with size 0" ∧
  train_batches (DemoRun.env_bad_image []) (fresh_experiment 0 0) [DemoRun.full_batch] 0%Q =
    Err "RuntimeError: shape '[3, 256, 256]' is invalid for input of size 1" ∧
  train (DemoRun.env []) (fresh_experiment 0 0) = Err "ZeroDivisionError: division by zero" ∧
  (∃ e' l, train (DemoRun.env [DemoRun.full_batch]) (fresh_experiment 0 0) = Ok (e', l) ∧
     ∃ s, no_skip_epoch (DemoRun.env [DemoRun.full_batch]) 0 0 [DemoRun.full_batch] 0%Q =
            Ok (model_state e', optimizer_state e', s) ∧ l = Qdiv s (inject_Z 1)).
Proof.
  split; [|split; [|split; [|split; [|split]]]].
  - destruct (train_batches (DemoRun.env []) (fresh_experiment 0 0)
                [DemoRun.full_batch; DemoRun.empty_batch] 0%Q) as [[e' s]|] eqn:Hr;
      [|vm_compute in Hr; discriminate].
    exists e', s. split; [reflexivity|].
    destruct (train_processes_every_batch (DemoRun.env []) (fresh_experiment 0 0)
                [DemoRun.full_batch; DemoRun.empty_batch] 0%Q) as [H1 _].
    exact (H1 _ _ Hr).
  - destruct (train_processes_every_batch (DemoRun.env [])
                (mkE 0 (Some []) (Some []) 0 0 (Some 1)) [DemoRun.empty_batch] 0%Q)
      as [_ [H2 _]].
    exact (H2 1 eq_refl).
  - destruct (train_processes_every_batch (DemoRun.env []) (fresh_experiment 0 0)
                [DemoRun.empty_batch] 0%Q) as [_ [_ [H3 _]]].
    exact (H3 _ _ eq_refl eq_refl eq_refl).
  - destruct (train_processes_every_batch (DemoRun.env_bad_image []) (fresh_experiment 0 0)
                [DemoRun.full_batch] 0%Q) as [_ [_ [_ [H4 _]]]].
    exact (H4 _ _ _ _ _ eq_refl eq_refl eq_refl eq_refl).
  - destruct (train_processes_every_batch (DemoRun.env []) (fresh_experiment 0 0)
                [] 0%Q) as [_ [_ [_ [_ [H5 _]]]]].
    exact (H5 eq_refl).
  - destruct (train (DemoRun.env [DemoRun.full_batch]) (fresh_experiment 0 0))
      as [[e' l]|] eqn:Ht; [|vm_compute in Ht; discriminate].
    exists e', l. split; [reflexivity|].
    destruct (train_processes_every_batch (DemoRun.env [DemoRun.full_batch])
                (fresh_experiment 0 0) [] 0%Q) as [_ [_ [_ [_ [_ H6]]]]].
    exact (proj2 (H6 _ _ Ht)).
Defined.

(** C8 as stated: the empty second batch is not skipped. It gets an
    optimizer step (two steps in all) and its loss is added to the sum,
    which is then divided by the two batches. *)
Lemma train_empty_batch_counterexample :
  rmap (λ '(e', l), (optimizer_state e', Qred l))
    (train (DemoRun.env [DemoRun.full_batch; DemoRun.empty_batch]) (fresh_experiment 0 0))
    = Ok (2, 1%Q) ∧
  rmap (λ '(e', s), (optimizer_state e', Qred s))
    (train_batches (DemoRun.env [DemoRun.full_batch; DemoRun.empty_batch])
       (fresh_experiment 0 0) [DemoRun.full_batch; DemoRun.empty_batch] 0%Q)
    = Ok (2, 2%Q).
Proof. split; vm_compute; reflexivity. Qed.

Lemma run_tests_every_tenth_epoch_witness :
  ∃ w' e' tested,
    run (DemoRun.env [DemoRun.full_batch]) (mkCfg 21 false false)
      DemoRun.empty_world (fresh_experiment 0 0) = Ok (w', e', tested) ∧
    tested = List.filter (should_test 0) (seq 0 21) ∧ (In 10 tested ∧ ¬ In 0 tested).
Proof.
  destruct (run (DemoRun.env [DemoRun.full_batch]) (mkCfg 21 false false)
              DemoRun.empty_world (fresh_experiment 0 0))
    as [[[w' e'] tested]|] eqn:Hr; [|vm_compute in Hr; discriminate].
  destruct (run_tests_every_tenth_epoch _ _ _ _ _ _ _ Hr) as [Ht Hin].
  exists w', e', tested. split; [reflexivity|]. split; [exact Ht|].
  split.
  - apply Hin. simpl. lia.
  - rewrite Hin. simpl. lia.
Defined.

(** C9 as stated: with a configurable interval K = 5 a fresh run would test
    at epochs 5 and 10. No configuration of the run tests at epoch 5: the
    interval is the constant 10. *)
Lemma run_test_interval_counterexample :
  ¬ ∃ cfg w' e',
    run (DemoRun.env [DemoRun.full_batch]) cfg DemoRun.empty_world
      (fresh_experiment 0 0) = Ok (w', e', [5; 10]).
Proof.
  intros (cfg & w' & e' & H). apply run_tested in H.
  assert (H5 : In 5 [5; 10]) by (left; reflexivity).
  rewrite H in H5. apply filter_In in H5 as [_ H5]. discriminate.
Qed.

(** ** Further properties of the model and the driver *)


Section GenCount.
Context {Img Vec St Hid : Type}.
Variable m : LSTMModel Img Vec St Hid.

Lemma record_words_completed it indices keep caps keep' caps' n :
  record_words m it indices keep caps = (keep', caps', n) →
  length indices = length keep → length keep = length caps →
  length (List.filter negb keep') = length (List.filter negb keep) + n.
Proof.
  revert keep caps keep' caps' n.
  induction indices as [|x indices IH]; intros keep caps keep' caps' n Hr Hl1 Hl2;
    destruct keep as [|k keep]; destruct caps as [|c caps]; simpl in *;
    try discriminate; try (injection Hr as <- <- <-; simpl; lia).
  destruct (record_words m it indices keep caps) as [[k1 c1] n1] eqn:E.
  pose proof (IH _ _ _ _ _ E ltac:(lia) ltac:(lia)) as IH'.
  destruct k; [destruct (String.eqb (idx2word m x) END)|];
    injection Hr as <- <- <-; simpl; lia.
Qed.

End GenCount.

Lemma filter_negb_replicate_true k : List.filter negb (replicate k true) = [].
Proof. induction k as [|k IH]; simpl; auto. Qed.

Lemma filter_negb_all_false (l : list bool) :
  length (List.filter negb l) = length l → l = replicate (length l) false.
Proof.
  induction l as [|b l IH]; [done|]. simpl.
  pose proof (List.filter_length_le negb l) as Hle.
  destruct b; simpl; intros H.
  - lia.
  - f_equal. apply IH. lia.
Qed.

Section GenInvariant.
Context {Img Vec St Hid Rng : Type}.
Variable m : LSTMModel Img Vec St Hid.
Variable T : TorchOps Rng.
Variable cfg : GenerationConfig.
Variable x0 : result (list (list Vec)).
Variable B : nat.
Hypothesis Hx0 : ∀ xs, x0 = Ok xs → length xs = B.

Lemma reach_num_complete (s : @gstate St Rng) :
  reach m T cfg x0 B s →
  num_complete s = length (List.filter negb (keep_generating s)).
Proof.
  induction 1 as [r|s s' Hr IH Hg Hb].
  - simpl. by rewrite filter_negb_replicate_true.
  - pose proof (reach_wf m T cfg x0 B Hx0 s Hr) as Hwf.
    unfold gen_body in Hb. unfold_bind.
    destruct (step_select m T cfg x0 s) as [[[ix hs] r1]|e] eqn:Es; [|discriminate].
    destruct (step_select_length m T cfg x0 B Hx0 s ix hs r1 Hwf Es) as [Hlix _].
    destruct (record_words m (iter s) ix (keep_generating s) (captions s))
      as [[keep' caps'] n] eqn:Er.
    injection Hb as <-. simpl.
    destruct Hwf as (Hk & Hc & _).
    rewrite (record_words_completed m _ _ _ _ _ _ _ Er) by lia. lia.
Qed.

Lemma gen_loop_exit fuel (s s'' : @gstate St Rng) :
  S (max_length cfg) - iter s ≤ fuel →
  gen_loop m T cfg x0 B fuel s = Ok s'' → gen_guard cfg B s'' = false.
Proof.
  revert s. induction fuel as [|f IH]; intros s Hf Hl; simpl in Hl.
  - injection Hl as <-. unfold gen_guard.
    replace (iter s <? max_length cfg + 1) with false by (symmetry; apply Nat.ltb_ge; lia).
    done.
  - destruct (gen_guard cfg B s) eqn:Hg; [|by injection Hl as <-].
    unfold_bind. destruct (gen_body m T cfg x0 s) as [s1|e] eqn:Hb; [|discriminate].
    pose proof (gen_body_iter m T cfg x0 s s1 Hb) as Hi.
    apply (IH s1); [lia|exact Hl].
Qed.

End GenInvariant.

(** X4: in every state of the while loop of [generate] reachable from the
    initial one, [num_complete] is the number of examples whose
    [keep_generating] flag is down, for any step-0 input with one row per
    example. *)
Theorem generate_loop_counts_completed {Img Vec St Hid Rng : Type}
    (m : LSTMModel Img Vec St Hid) (T : TorchOps Rng) (cfg : GenerationConfig)
    (x0 : result (list (list Vec))) (B : nat)
    (Hx0 : ∀ xs, x0 = Ok xs → length xs = B) (s : @gstate St Rng) :
  reach m T cfg x0 B s →
  num_complete s = length (List.filter negb (keep_generating s)).
Proof. exact (reach_num_complete m T cfg x0 B Hx0 s). Qed.

(** X5: when the while loop of [generate] returns, either it made all
    [max_length + 1] steps, or it stopped earlier and every example has
    produced [<end>] (all flags are down). *)
Theorem generate_loop_stops_early_only_when_all_complete {Img Vec St Hid Rng : Type}
    (m : LSTMModel Img Vec St Hid) (T : TorchOps Rng) (cfg : GenerationConfig)
    (x0 : result (list (list Vec))) (B : nat) (r : Rng)
    (Hx0 : ∀ xs, x0 = Ok xs → length xs = B) (s : @gstate St Rng) :
  gen_while m T cfg x0 B (init_state m B (max_length cfg) r) = Ok s →
  iter s = S (max_length cfg) ∨
  (iter s ≤ max_length cfg ∧ keep_generating s = replicate B false).
Proof.
  intros Hw.
  pose proof (reach_loop m T cfg x0 B _ _ _ (reach_init m T cfg x0 B r) Hw) as Hr.
  pose proof (reach_iter_le m T cfg x0 B s Hr) as Hle.
  pose proof (reach_num_complete m T cfg x0 B Hx0 s Hr) as Hn.
  destruct (reach_wf m T cfg x0 B Hx0 s Hr) as (Hk & _).
  pose proof (gen_loop_exit m T cfg x0 B _ _ s (le_n _) Hw) as Hg.
  unfold gen_guard in Hg. apply andb_false_iff in Hg as [Hg|Hg].
  - left. apply Nat.ltb_ge in Hg. lia.
  - apply Nat.ltb_ge in Hg.
    destruct (decide (iter s = S (max_length cfg))) as [|Hne]; [by left|right].
    split; [lia|].
    pose proof (List.filter_length_le negb (keep_generating s)) as Hfl.
    rewrite <- Hk. apply filter_negb_all_false. lia.
Qed.

Lemma generate_loop_counts_completed_witness :
  (∀ xs, Demo.x0 = Ok xs → length xs = 2) ∧
  reach Demo.model Demo.torch (Demo.greedy 3) Demo.x0 2 Demo.s1 ∧
  num_complete Demo.s1 = length (List.filter negb (keep_generating Demo.s1)).
Proof.
  assert (Hx0 : ∀ xs, Demo.x0 = Ok xs → length xs = 2)
    by (intros xs H; injection H as <-; reflexivity).
  assert (Hr : reach Demo.model Demo.torch (Demo.greedy 3) Demo.x0 2 Demo.s1).
  { apply (reach_step _ _ _ _ _ Demo.s0); [apply reach_init|reflexivity|].
    vm_compute. reflexivity. }
  exact (conj Hx0 (conj Hr
    (generate_loop_counts_completed Demo.model Demo.torch (Demo.greedy 3) Demo.x0 2
       Hx0 Demo.s1 Hr))).
Defined.

Lemma generate_loop_stops_early_only_when_all_complete_witness :
  (∀ xs, Demo.x0 = Ok xs → length xs = 2) ∧
  ∃ s, gen_while Demo.model Demo.torch (Demo.greedy 3) Demo.x0 2
         (init_state Demo.model 2 3 0) = Ok s ∧
       (iter s = 4 ∨ (iter s ≤ 3 ∧ keep_generating s = replicate 2 false)).
Proof.
  assert (Hx0 : ∀ xs, Demo.x0 = Ok xs → length xs = 2)
    by (intros xs H; injection H as <-; reflexivity).
  split; [exact Hx0|].
  destruct (gen_while Demo.model Demo.torch (Demo.greedy 3) Demo.x0 2
              (init_state Demo.model 2 3 0)) as [s|msg] eqn:Hw;
    [|vm_compute in Hw; discriminate].
  exists s. split; [reflexivity|].
  exact (generate_loop_stops_early_only_when_all_complete Demo.model Demo.torch
           (Demo.greedy 3) Demo.x0 2 0 Hx0 s Hw).
Defined.


Lemma lstm_seq_take {Img Vec St Hid : Type} (m : LSTMModel Img Vec St Hid)
    (k : nat) (s : St) (xs : list Vec) :
  take k (fst (lstm_seq m s xs)) = fst (lstm_seq m s (take k xs)).
Proof.
  revert k s. induction xs as [|x xs IH]; intros k s.
  - by destruct k.
  - destruct k as [|k]; [done|]. simpl.
    destruct (decoder_cell m s x) as [s1 h].
    specialize (IH k s1).
    destruct (lstm_seq m s1 xs) as [hs s2]. destruct (lstm_seq m s1 (take k xs)) as [hs' s2'].
    simpl in *. by rewrite IH.
Qed.

Lemma take_permute_vocab (k V : nat) (rows : list (list Z)) :
  map (take k) (permute_vocab V rows) = permute_vocab V (take k rows).
Proof.
  unfold permute_vocab. rewrite map_map. apply map_ext. intros v.
  by rewrite firstn_map.
Qed.

Lemma take_removelast_eq {A : Type} (c c' : list A) (t : nat) :
  length c = length c' → take t c = take t c' →
  take t (removelast c) = take t (removelast c').
Proof.
  intros Hl Ht. rewrite !removelast_take, Hl, !take_take.
  replace (t `min` (length c' - 1)) with ((t `min` (length c' - 1)) `min` t) by lia.
  rewrite <- !take_take. by rewrite Ht.
Qed.

(** X1: [forward] raises in [torch.cat] on a batch of one image, whatever
    the captions, and on any other batch whose number of captions differs
    from the number of images; otherwise it returns the per-example
    scores. *)
Theorem forward_raises_on_bad_batch_size {Img Vec St Hid : Type}
    (m : LSTMModel Img Vec St Hid) (images : list Img) (captions : list (list nat)) :
  forward m images captions =
    if length images =? 1 then Err "Tensors must have same number of dimensions"
    else if length captions =? length images then
      Ok (zip_with (forward_example m) images captions)
    else Err "Sizes of tensors must match except in dimension 1".
Proof. apply forward_cases. Qed.

(** X3: the scores [forward] gives at positions [0 .. t] of a caption depend
    only on the image and the first [t] tokens of the caption. *)
Theorem forward_scores_are_causal {Img Vec St Hid : Type}
    (m : LSTMModel Img Vec St Hid) (img : Img) (c c' : list nat) (t : nat) :
  length c = length c' → take t c = take t c' →
  map (take (S t)) (forward_example m img c) = map (take (S t)) (forward_example m img c').
Proof.
  intros Hl Ht. unfold forward_example. rewrite !take_permute_vocab.
  rewrite !firstn_map, !lstm_seq_take. cbn [firstn].
  rewrite !firstn_map. by rewrite (take_removelast_eq c c' t Hl Ht).
Qed.

Lemma forward_scores_are_causal_witness :
  length [3; 2; 4] = length [3; 0; 2] ∧ take 1 [3; 2; 4] = take 1 [3; 0; 2] ∧
  map (take 2) (forward_example Demo.model 10 [3; 2; 4]) =
    map (take 2) (forward_example Demo.model 10 [3; 0; 2]).
Proof.
  split; [reflexivity|]. split; [reflexivity|].
  exact (forward_scores_are_causal Demo.model 10 [3; 2; 4] [3; 0; 2] 1 eq_refl eq_refl).
Defined.


(** Driver facts on any network *)
Section DriverMore.
Context {Img Mdl Opt : Type} (env : ExpEnv Img Mdl Opt) (cfg : ExpConfig).
Local Abbreviation Exp := (Experiment Img Mdl Opt).
Local Abbreviation W := (World Mdl Opt).

Lemma train_batches_keeps_example_img (e e' : Exp) bs acc s img :
  train_batches env e bs acc = Ok (e', s) → example_img e = Some img →
  example_img e' = Some img.
Proof.
  revert e acc. induction bs as [|b bs IH]; intros e acc H Hi; simpl in H.
  - by injection H as <- _.
  - unfold_bind. rewrite Hi in H. break_ok H. eapply IH; [exact H|]. done.
Qed.

Lemma train_example_img_spec (e e' : Exp) l :
  train env e = Ok (e', l) →
  ∃ b bs img, train_loader env = b :: bs ∧ example_img e' = Some img ∧
    match example_img e with
    | Some img0 => img = img0
    | None => head (b_images b) = Some img
    end.
Proof.
  unfold train. unfold_bind. intros H. break_ok H.
  injection H as <- _.
  destruct (train_loader env) as [|b bs] eqn:Eb; [simpl in E0; discriminate|].
  destruct (example_img e) as [img0|] eqn:Ei.
  - exists b, bs, img0. split; [done|]. split; [|done].
    eapply train_batches_keeps_example_img; [exact E|done].
  - pose proof E as E'. simpl in E'. rewrite Ei in E'.
    destruct (b_images b) as [|img imgs] eqn:Eim; [discriminate|].
    unfold_bind. destruct (show_image env img); [|discriminate]. break_ok E'.
    exists b, bs, img. split; [done|]. split; [|by rewrite Eim].
    eapply train_batches_keeps_example_img; [exact E'|reflexivity].
Qed.

Lemma record_stats_example_img (w w' : W) (e e' : Exp) tl vl :
  record_stats env cfg w e tl vl = Ok (w', e') → example_img e' = example_img e.
Proof.
  unfold record_stats. intros H.
  destruct (training_losses e), (val_losses e); try discriminate.
  destruct (save cfg); unfold_bind; break_ok H; by injection H as _ <-.
Qed.

Lemma run_epoch_example_img start (w w' : W) (e e' : Exp) t t' ep :
  run_epoch env cfg start (w, e, t) ep = Ok (w', e', t') →
  ∃ img, example_img e' = Some img.
Proof.
  unfold run_epoch. unfold_bind. intros H. break_ok H.
  injection H as _ <- _.
  destruct (train_example_img_spec _ _ _ E1) as (b & bs & img & _ & Hi & _).
  exists img. rewrite (record_stats_example_img _ _ _ _ _ _ E3). exact Hi.
Qed.

Lemma plot_stats_ok_lengths (w w' : W) (e : Exp) b :
  plot_stats env cfg w e b = Ok w' →
  ∃ ts vs, training_losses e = Some ts ∧ val_losses e = Some vs ∧ length ts = length vs.
Proof.
  unfold plot_stats, py_len. unfold_bind. intros H.
  destruct (training_losses e) as [ts|]; [|discriminate].
  destruct (val_losses e) as [vs|]; [|discriminate].
  destruct (length vs =? length ts) eqn:El; [|discriminate].
  apply Nat.eqb_eq in El. exists ts, vs. done.
Qed.

Lemma run_epoch_lengths start (w w' : W) (e e' : Exp) t t' ep :
  run_epoch env cfg start (w, e, t) ep = Ok (w', e', t') →
  ∃ ts vs, training_losses e' = Some ts ∧ val_losses e' = Some vs ∧ length ts = length vs.
Proof.
  unfold run_epoch. unfold_bind. intros H. break_ok H.
  injection H as _ <- _. eapply plot_stats_ok_lengths. exact E6.
Qed.

End DriverMore.

(** X6: after a successful [__train] the example image is set. It is the
    image the experiment already had, or, if it had none, the first image
    of the first training batch. *)
Theorem train_sets_example_img_once {Img Mdl Opt : Type} (env : ExpEnv Img Mdl Opt)
    (e e' : Experiment Img Mdl Opt) l :
  train env e = Ok (e', l) →
  ∃ b bs img, train_loader env = b :: bs ∧ example_img e' = Some img ∧
    match example_img e with
    | Some img0 => img = img0
    | None => head (b_images b) = Some img
    end.
Proof. apply train_example_img_spec. Qed.

(** X10: [run] raises whenever it starts with two loss histories of
    different lengths: [plot_stats] fails at the end of the first epoch,
    or at the end of the run when there is no epoch left. *)
Theorem run_raises_on_mismatched_histories {Img Mdl Opt : Type} (env : ExpEnv Img Mdl Opt)
    (cfg : ExpConfig) (w : World Mdl Opt) (e : Experiment Img Mdl Opt) ts vs :
  training_losses e = Some ts → val_losses e = Some vs → length ts ≠ length vs →
  ∃ msg, run env cfg w e = Err msg.
Proof.
  intros Ht Hv Hne. unfold run. unfold_bind.
  destruct (num_epochs cfg - current_epoch e) as [|k] eqn:Ek.
  - simpl. unfold plot_stats, py_len. rewrite Ht, Hv. unfold_bind.
    replace (length vs =? length ts) with false by (symmetry; apply Nat.eqb_neq; lia).
    simpl. eexists; reflexivity.
  - cbn [seq run_epochs]. unfold_bind.
    destruct (run_epoch env cfg (current_epoch e) (w, e, []) (current_epoch e))
      as [[[w1 e1] t1]|msg] eqn:E1; [|eexists; reflexivity].
    exfalso.
    destruct (run_epoch_histories env cfg _ _ _ _ _ _ _ _ _ _ E1 Ht Hv)
      as (tl & vl & Ht1 & Hv1 & _).
    destruct (run_epoch_lengths env cfg _ _ _ _ _ _ _ _ E1) as (ts1 & vs1 & Ht2 & Hv2 & Hl).
    rewrite Ht1 in Ht2. rewrite Hv1 in Hv2. injection Ht2 as <-. injection Hv2 as <-.
    rewrite !length_app in Hl. simpl in Hl. lia.
Qed.

(** The captioning model in the driver *)

Lemma generate_nil {Img Vec St Hid Rng : Type} (m : LSTMModel Img Vec St Hid)
    (T : TorchOps Rng) cfg (r : Rng) :
  generate m T [] cfg r = Ok ([], r).
Proof.
  unfold generate, gen_while, gen_loop, gen_guard. simpl.
  rewrite Nat.add_1_r. simpl. done.
Qed.

Section LstmFacts.
Context {Img Vec St Hid Rng Opt : Type}.
Variable T : TorchOps Rng.
Variable gc : GenerationConfig.
Variable r0 : Rng.
Variable criterion : list (list (list Z)) → list (list nat) → result Q.
Variable show_image : Img → result unit.
Variable references : nat → list (list string).
Variables bleu1 bleu4 : list (list string) → list string → Q.
Variable tqdm_write : list string → result unit.
Local Abbreviation Mdl := (LSTMModel Img Vec St Hid).

Lemma lstm_generate_example_caption_cases (e : Experiment Img Mdl Opt) :
  lstm_generate_example_caption T gc r0 e =
    match example_img e with
    | Some _ => Err "Expected tensor for argument #1 'indices' to have one of the following scalar types: Long, Int"
    | None => Ok tt
    end.
Proof.
  unfold lstm_generate_example_caption. destruct (example_img e) as [img|]; [|done].
  rewrite generate_step0_raises. done.
Qed.

Lemma test_batch_first_raises (mdl : Mdl) b img_ids acc :
  ∃ msg, test_batch T gc r0 criterion show_image references bleu1 bleu4 tqdm_write
           mdl 0 b img_ids acc = Err msg.
Proof.
  destruct acc as [[tl b1] b4]. unfold test_batch. unfold_bind.
  destruct (forward mdl (b_images b) (b_captions b)) as [outs|msg]; [|eauto].
  destruct (criterion outs (b_captions b)) as [loss|msg]; [|eauto].
  destruct (b_images b) as [|img imgs] eqn:Ei.
  - rewrite generate_nil. cbn [bleu_loop length].
    destruct (b_captions b) as [|c cs] eqn:Ec.
    + simpl. eauto.
    + cbn [length seq bleu_loop]. unfold_bind.
      destruct (py_getitem img_ids (Z.of_nat 0)) as [id|msg]; [|eauto].
      simpl. eauto.
  - rewrite generate_step0_raises. eauto.
Qed.

Lemma lstm_test_raises_any (mdl : Mdl) test_loader :
  ∃ msg, lstm_test T gc r0 criterion show_image references bleu1 bleu4 tqdm_write
           mdl test_loader = Err msg.
Proof.
  unfold lstm_test. unfold_bind.
  destruct test_loader as [|[b ids] loader].
  - simpl. eauto.
  - cbn [test_batches]. unfold_bind.
    destruct (test_batch_first_raises mdl b ids (0, 0, 0)%Q) as [msg ->]. eauto.
Qed.

Lemma lstm_train_batches_single_image_raises (step : Mdl → Opt → Batch Img → Mdl * Opt)
    root trl vl tsl bs (e : Experiment Img Mdl Opt) acc b :
  In b bs → length (b_images b) = 1 →
  ∃ msg, train_batches (lstm_env T gc r0 criterion show_image references bleu1 bleu4
                          tqdm_write root trl vl tsl step) e bs acc = Err msg.
Proof.
  intros Hin Hb. revert e acc. induction bs as [|b0 bs IH]; intros e acc; [done|].
  simpl. unfold_bind.
  match goal with
  | |- context [match ?x with Ok _ => _ | Err _ => _ end] => destruct x as [e1|msg]; [|eauto]
  end.
  destruct Hin as [<-|Hin].
  - simpl. unfold lstm_batch_loss. rewrite forward_cases, Hb. simpl. eauto.
  - destruct (lstm_batch_loss criterion (model_state e1) b0) as [loss|msg]; [|eauto].
    apply IH. exact Hin.
Qed.

Lemma lstm_val_batches_single_image_raises (step : Mdl → Opt → Batch Img → Mdl * Opt)
    root trl vl tsl bs (mdl : Mdl) acc b :
  In b bs → length (b_images b) = 1 →
  ∃ msg, val_batches (lstm_env T gc r0 criterion show_image references bleu1 bleu4
                        tqdm_write root trl vl tsl step) mdl bs acc = Err msg.
Proof.
  intros Hin Hb. revert acc. induction bs as [|b0 bs IH]; intros acc; [done|].
  simpl. unfold_bind.
  destruct Hin as [<-|Hin].
  - simpl. unfold lstm_batch_loss. rewrite forward_cases, Hb. simpl. eauto.
  - destruct (lstm_batch_loss criterion mdl b0) as [loss|msg]; [|eauto].
    apply IH. exact Hin.
Qed.

End LstmFacts.

(** X7: with the captioning model, [generate_example_caption] does nothing
    while no example image is set, and raises (the float features reach
    the embedding at step 0) once one is. *)
Theorem generate_example_caption_raises_once_set {Img Vec St Hid Rng Opt : Type}
    (T : TorchOps Rng) (gc : GenerationConfig) (r0 : Rng)
    (e : Experiment Img (LSTMModel Img Vec St Hid) Opt) :
  lstm_generate_example_caption T gc r0 e =
    match example_img e with
    | Some _ => Err "Expected tensor for argument #1 'indices' to have one of the following scalar types: Long, Int"
    | None => Ok tt
    end.
Proof. apply lstm_generate_example_caption_cases. Qed.

(** X8: with the captioning model, [test] raises on every test loader:
    on an empty loader (division by [len(test_loader)]), and on the first
    batch otherwise. *)
Theorem test_always_raises {Img Vec St Hid Rng : Type}
    (T : TorchOps Rng) (gc : GenerationConfig) (r0 : Rng) criterion show_image
    references bleu1 bleu4 tqdm_write (mdl : LSTMModel Img Vec St Hid) test_loader :
  ∃ msg, lstm_test T gc r0 criterion show_image references bleu1 bleu4 tqdm_write
           mdl test_loader = Err msg.
Proof. apply lstm_test_raises_any. Qed.

(** X12: with the captioning model, [__train] raises when a training batch
    holds exactly one image. *)
Theorem train_raises_on_single_image_batch {Img Vec St Hid Rng Opt : Type}
    (T : TorchOps Rng) (gc : GenerationConfig) (r0 : Rng) criterion show_image
    references bleu1 bleu4 tqdm_write root trl vl tsl
    (step : LSTMModel Img Vec St Hid → Opt → Batch Img → LSTMModel Img Vec St Hid * Opt)
    (e : Experiment Img (LSTMModel Img Vec St Hid) Opt) b :
  In b trl → length (b_images b) = 1 →
  ∃ msg, train (lstm_env T gc r0 criterion show_image references bleu1 bleu4
                  tqdm_write root trl vl tsl step) e = Err msg.
Proof.
  intros Hin Hb. unfold train. unfold_bind.
  destruct (lstm_train_batches_single_image_raises T gc r0 criterion show_image references
              bleu1 bleu4 tqdm_write step root trl vl tsl trl e 0%Q b Hin Hb) as [msg Hm].
  cbn [train_loader lstm_env]. rewrite Hm. eauto.
Qed.

(** X13: with the captioning model, [__val] raises when a validation batch
    holds exactly one image. *)
Theorem val_raises_on_single_image_batch {Img Vec St Hid Rng Opt : Type}
    (T : TorchOps Rng) (gc : GenerationConfig) (r0 : Rng) criterion show_image
    references bleu1 bleu4 tqdm_write root trl vl tsl
    (step : LSTMModel Img Vec St Hid → Opt → Batch Img → LSTMModel Img Vec St Hid * Opt)
    (e : Experiment Img (LSTMModel Img Vec St Hid) Opt) b :
  In b vl → length (b_images b) = 1 →
  ∃ msg, val (lstm_env T gc r0 criterion show_image references bleu1 bleu4
                tqdm_write root trl vl tsl step) e = Err msg.
Proof.
  intros Hin Hb. unfold val. unfold_bind.
  destruct (lstm_val_batches_single_image_raises T gc r0 criterion show_image references
              bleu1 bleu4 tqdm_write step root trl vl tsl vl (model_state e) 0%Q b Hin Hb)
    as [msg Hm].
  cbn [val_loader lstm_env]. rewrite Hm. eauto.
Qed.

(** X9: with the captioning model, a [run] that returns trains at most one
    epoch: the first epoch sets the example image, and
    [generate_example_caption] then raises at the start of the next one.
    A run that trains an epoch started with no example image and ran no
    test. *)
Theorem run_lstm_at_most_one_epoch {Img Vec St Hid Rng Opt : Type}
    (T : TorchOps Rng) (gc : GenerationConfig) (r0 : Rng) criterion show_image
    references bleu1 bleu4 tqdm_write root trl vl tsl
    (step : LSTMModel Img Vec St Hid → Opt → Batch Img → LSTMModel Img Vec St Hid * Opt)
    (cfg : ExpConfig) (w w' : World (LSTMModel Img Vec St Hid) Opt)
    (e e' : Experiment Img (LSTMModel Img Vec St Hid) Opt) tested :
  run (lstm_env T gc r0 criterion show_image references bleu1 bleu4
         tqdm_write root trl vl tsl step) cfg w e = Ok (w', e', tested) →
  num_epochs cfg ≤ current_epoch e ∨
  (num_epochs cfg = S (current_epoch e) ∧ example_img e = None ∧ tested = []).
Proof.
  set (env := lstm_env T gc r0 criterion show_image references bleu1 bleu4
                tqdm_write root trl vl tsl step).
  intros H. destruct (num_epochs cfg - current_epoch e) as [|k] eqn:Ek; [left; lia|right].
  pose proof (run_tested env cfg _ _ _ _ _ H) as Ht.
  unfold run in H. rewrite Ek in H. cbn [seq run_epochs] in H. unfold_bind.
  destruct (run_epoch env cfg (current_epoch e) (w, e, []) (current_epoch e))
    as [[[w1 e1] t1]|msg] eqn:E1; [|cbn in H; discriminate].
  assert (Hn : example_img e = None).
  { pose proof E1 as E1'. unfold run_epoch in E1'. unfold_bind.
    cbn [generate_example_caption env lstm_env] in E1'.
    rewrite lstm_generate_example_caption_cases in E1'.
    destruct (example_img e); [discriminate|done]. }
  destruct k as [|k].
  - split; [lia|]. split; [exact Hn|].
    rewrite Ek in Ht. rewrite Ht. simpl. unfold should_test.
    by rewrite Nat.eqb_refl, andb_false_r.
  - exfalso. cbn [seq run_epochs] in H. unfold_bind.
    destruct (run_epoch_example_img env cfg _ _ _ _ _ _ _ _ E1) as [img Hi].
    unfold run_epoch in H. unfold_bind.
    cbn [generate_example_caption env lstm_env] in H.
    rewrite lstm_generate_example_caption_cases, Hi in H. cbn in H. discriminate.
Qed.



Lemma train_raises_on_single_image_batch_witness :
  In DemoLstm.single_batch [DemoLstm.pair_batch; DemoLstm.single_batch] ∧
  length (b_images DemoLstm.single_batch) = 1 ∧
  ∃ msg, train (DemoLstm.env [DemoLstm.pair_batch; DemoLstm.single_batch])
           (fresh_experiment Demo.model 0) = Err msg.
Proof.
  assert (Hin : In DemoLstm.single_batch [DemoLstm.pair_batch; DemoLstm.single_batch])
    by (right; left; reflexivity).
  split; [exact Hin|]. split; [reflexivity|].
  exact (train_raises_on_single_image_batch Demo.torch (Demo.greedy 3) 0 _ _ _ _ _ _
           DemoRun.root [DemoLstm.pair_batch; DemoLstm.single_batch] _ [] _
           (fresh_experiment Demo.model 0) DemoLstm.single_batch Hin eq_refl).
Defined.

Lemma val_raises_on_single_image_batch_witness :
  In DemoLstm.single_batch [DemoLstm.single_batch] ∧
  length (b_images DemoLstm.single_batch) = 1 ∧
  ∃ msg, val (DemoLstm.env [DemoLstm.single_batch]) (fresh_experiment Demo.model 0) = Err msg.
Proof.
  assert (Hin : In DemoLstm.single_batch [DemoLstm.single_batch]) by (left; reflexivity).
  split; [exact Hin|]. split; [reflexivity|].
  exact (val_raises_on_single_image_batch Demo.torch (Demo.greedy 3) 0 _ _ _ _ _ _
           DemoRun.root _ [DemoLstm.single_batch] [] _
           (fresh_experiment Demo.model 0) DemoLstm.single_batch Hin eq_refl).
Defined.

Lemma run_lstm_at_most_one_epoch_witness :
  ∃ w' e' tested,
    run (DemoLstm.env [DemoLstm.pair_batch]) (mkCfg 1 false false)
      DemoLstm.empty_world (fresh_experiment Demo.model 0) = Ok (w', e', tested) ∧
    (1 ≤ 0 ∨ (1 = 1 ∧ @example_img nat (LSTMModel nat nat nat nat) nat
                        (fresh_experiment Demo.model 0) = None ∧ tested = [])).
Proof.
  destruct (run (DemoLstm.env [DemoLstm.pair_batch]) (mkCfg 1 false false)
              DemoLstm.empty_world (fresh_experiment Demo.model 0))
    as [[[w' e'] tested]|msg] eqn:Hr; [|vm_compute in Hr; discriminate].
  exists w', e', tested. split; [reflexivity|].
  exact (run_lstm_at_most_one_epoch Demo.torch (Demo.greedy 3) 0 _ _ _ _ _ _
           DemoRun.root [DemoLstm.pair_batch] [DemoLstm.pair_batch] [] _
           (mkCfg 1 false false) _ _ _ _ _ Hr).
Defined.

Lemma train_sets_example_img_once_witness :
  ∃ e' l, train (DemoLstm.env [DemoLstm.pair_batch]) (fresh_experiment Demo.model 0) = Ok (e', l) ∧
    ∃ b bs img, train_loader (DemoLstm.env [DemoLstm.pair_batch]) = b :: bs ∧
      example_img e' = Some img ∧ head (b_images b) = Some img.
Proof.
  destruct (train (DemoLstm.env [DemoLstm.pair_batch]) (fresh_experiment Demo.model 0))
    as [[e' l]|msg] eqn:Ht; [|vm_compute in Ht; discriminate].
  exists e', l. split; [reflexivity|].
  exact (train_sets_example_img_once _ _ _ _ Ht).
Defined.

Lemma run_raises_on_mismatched_histories_witness :
  training_losses (mkE 0 (Some [1%Q]) (Some []) 0 0 None : Experiment nat nat nat) = Some [1%Q] ∧
  val_losses (mkE 0 (Some [1%Q]) (Some []) 0 0 None : Experiment nat nat nat) = Some [] ∧
  length [1%Q] ≠ length (@nil Q) ∧
  ∃ msg, run (DemoRun.env [DemoRun.full_batch]) (mkCfg 1 false false) DemoRun.empty_world
           (mkE 0 (Some [1%Q]) (Some []) 0 0 None) = Err msg.
Proof.
  split; [reflexivity|]. split; [reflexivity|]. split; [discriminate|].
  exact (run_raises_on_mismatched_histories (DemoRun.env [DemoRun.full_batch])
           (mkCfg 1 false false) DemoRun.empty_world (mkE 0 (Some [1%Q]) (Some []) 0 0 None)
           [1%Q] [] eq_refl eq_refl ltac:(discriminate)).
Defined.

